(** * Clip indexing, batch partitioning and feature aggregation

    A shallow embedding of [utils/utils.py] and of the aggregation code of
    [main.py] (I3D / C3D clip-feature extraction), with the properties of
    the clip pipeline proved on it.

    Conventions.
    - Python integers are [Z]; [//] is [Z.div] (both round towards minus
      infinity), and a zero divisor raises [ZeroDivisionError].
    - A raised exception is the left injection of [result].
    - A NumPy array of frame indices is a nested list; axis 0 is the outer
      list.  [np.asarray] of arrays of different lengths raises
      [ValueError].
    - Tensor entries are of a type with the operations of [Arith] (zero,
      division, norm), and of an arbitrary type where only the indexing of
      the tensor matters.  What is said about numbers is said for exact
      arithmetic on [R], and says nothing about rounding. *)

From Stdlib Require Import String ZArith List Lia Bool Sorting.Sorted.
From Stdlib Require Import Reals Lra.
From Stdlib Require Import Ascii DecimalString DecimalNat.
Import ListNotations.

Local Open Scope Z_scope.

(** ** Python layer: exceptions, ranges, slices, calls *)

Module Py.

Inductive exn : Type :=
| AssertionError
| ZeroDivisionError
| ValueError
| TypeError
| IndexError
| NameError
| RuntimeError.

Definition result (A : Type) : Type := (exn + A)%type.

Definition ret {A : Type} (a : A) : result A := inr a.
Definition raise {A : Type} (e : exn) : result A := inl e.

Definition bind {A B : Type} (m : result A) (k : A -> result B) : result B :=
  match m with
  | inl e => inl e
  | inr a => k a
  end.

Fixpoint mapM {A B : Type} (f : A -> result B) (l : list A) : result (list B) :=
  match l with
  | [] => ret []
  | x :: rest =>
      bind (f x) (fun y => bind (mapM f rest) (fun ys => ret (y :: ys)))
  end.

Fixpoint foldM {S X : Type} (f : S -> X -> result S) (l : list X) (s : S)
  : result S :=
  match l with
  | [] => ret s
  | x :: rest => bind (f s x) (foldM f rest)
  end.

(** [range(a, b)] *)
Definition range (a b : Z) : list Z :=
  map (fun j => a + Z.of_nat j) (seq 0 (Z.to_nat (b - a))).

(** [l[:k]], with Python's reading of a negative bound. *)
Definition slice_to {A : Type} (k : Z) (l : list A) : list A :=
  if k <? 0
  then firstn (length l - Z.to_nat (- k)) l
  else firstn (Z.to_nat k) l.

(** [int(np.ceil(n / c))] for [c <> 0].  The quotient is taken in double
    precision by the source; it is exact for the counts of clips a video
    can have (below 2^53). *)
Definition ceil_div (n c : Z) : Z := - ((- n) / c).

(** [l[i]] on a Python list: a negative index counts from the end. *)
Definition getitem {A : Type} (l : list A) (i : Z) : result A :=
  let j := if i <? 0 then i + Z.of_nat (length l) else i in
  if j <? 0 then raise IndexError
  else match nth_error l (Z.to_nat j) with
       | Some x => ret x
       | None => raise IndexError
       end.

(** [l[i] = x] for an index in range; an index out of range leaves the
    list as it is (the callers below only write within range). *)
Fixpoint set_nth {B : Type} (i : nat) (x : B) (l : list B) : list B :=
  match l, i with
  | [], _ => []
  | _ :: rest, O => x :: rest
  | y :: rest, S j => y :: set_nth j x rest
  end.

End Py.

Notation "x <- m ;; k" := (Py.bind m (fun x => k))
  (at level 61, m at next level, right associativity).

(** ** NumPy layer *)

Module Np.
Import Py.

(** Sizes of the sections of [np.array_split(ary, Nsections)]:
    [Ntotal % Nsections] sections of [Ntotal // Nsections + 1] elements,
    followed by the others with [Ntotal // Nsections] elements. *)
Definition section_sizes (Ntotal Nsections : nat) : list nat :=
  (repeat (S (Ntotal / Nsections)) (Ntotal mod Nsections)
   ++ repeat (Ntotal / Nsections) (Nsections - Ntotal mod Nsections))%nat.

(** Consecutive slices of [ary] of the given sizes. *)
Fixpoint sections {A : Type} (sizes : list nat) (ary : list A) : list (list A) :=
  match sizes with
  | [] => []
  | s :: rest => firstn s ary :: sections rest (skipn s ary)
  end.

(** [np.array_split(ary, Nsections, axis=0)]; a section count that is not
    positive raises [ValueError]. *)
Definition array_split {A : Type} (ary : list A) (Nsections : Z)
  : result (list (list A)) :=
  if Nsections <=? 0 then raise ValueError
  else ret (sections (section_sizes (length ary) (Z.to_nat Nsections)) ary).

(** [np.asarray(arrays)] on a list of arrays: arrays of one length are
    stacked along a new first axis; arrays of different lengths have no
    common shape, and the call raises [ValueError]. *)
Definition asarray {A : Type} (arrays : list (list A)) : result (list (list A)) :=
  if forallb (fun a => (length a =? length (hd [] arrays))%nat) arrays
  then ret arrays
  else raise ValueError.

End Np.

(** ** utils/utils.py *)

Module Utils.
Import Py.

(** [from_frames_to_clips(frames, chunk_size, frequency)] *)
Definition from_frames_to_clips {F : Type}
    (frames : list F) (chunk_size frequency : Z) : result (list (list Z)) :=
  let frame_cnt := Z.of_nat (length frames) in
  if negb (frame_cnt >? chunk_size) then raise AssertionError
  else
    let clipped_length := frame_cnt - chunk_size in
    if frequency =? 0 then raise ZeroDivisionError
    else
      let clipped_length := (clipped_length / frequency) * frequency in
      ret (map (fun i => range (i * frequency) (i * frequency + chunk_size))
               (range 0 (clipped_length / frequency + 1))).

(** [split_clip_indices_into_batches(frame_indices, batch_size)]: the
    groups of [np.array_split], stacked by [np.asarray] into one array
    (line 30). *)
Definition split_clip_indices_into_batches {W : Type}
    (frame_indices : list W) (batch_size : Z) : result (list (list W)) :=
  let chunk_num := Z.of_nat (length frame_indices) in
  if batch_size =? 0 then raise ZeroDivisionError
  else
    let batch_num := ceil_div chunk_num batch_size in
    frame_indices <- Np.array_split frame_indices batch_num ;;
    Np.asarray frame_indices.

(** Shape of the array [load_rgb_batch] allocates:
    [np.zeros(frame_indices.shape + (10, 3, 224, 224))]. *)
Definition batch_data_shape (frame_indices_shape : list nat) : list nat :=
  (frame_indices_shape ++ [10; 3; 224; 224])%nat.

Section Loader.
(** A frame after [transform]: its ten normalised 3 x 224 x 224 crops. *)
Variable Frame : Type.
(** [transform(cv2.imread(os.path.join(frames_dir, file)))] *)
Variable read_and_crop : string -> string -> Frame.

(** [load_rgb_batch(frames_dir, rgb_files, frame_indices)]: one
    transformed frame per cell of the 2-d index array. *)
Definition load_rgb_batch (frames_dir : string) (rgb_files : list string)
    (frame_indices : list (list Z)) : result (list (list Frame)) :=
  mapM (fun clip =>
          mapM (fun frame_index =>
                  file <- getitem rgb_files frame_index ;;
                  ret (read_and_crop frames_dir file))
               clip)
       frame_indices.
End Loader.

End Utils.

Import Py Np Utils.

(** ** main.py *)

Module Main.
Import Py Utils.

(** *** Normalisation (lines 46-47 and 102-103) *)

(** The numbers a feature tensor holds, with what lines 30, 46-47, 86 and
    102-103 do with them: the [0.] of [torch.zeros], the division of an
    entry by a scalar, and [torch.linalg.norm] of a tensor given by its
    entries in storage order (no [dim], no [ord]: the tensor is flattened
    to one dimension).  The code runs on [float32]; how torch rounds and
    accumulates is not in the source, and the entry points are written
    against this interface. *)
Class Arith (N : Type) : Type :=
  { zero : N;
    divide : N -> N -> N;
    norm : list N -> N }.

(** C3D features: batch x 4096. *)
Definition flatten_c3d {N : Type} (v : list (list N)) : list N := concat v.

(** I3D features: batch x 1024 x 1 x 1 x 1. *)
Definition flatten_i3d {N : Type} (v : list (list (list (list (list N)))))
  : list N :=
  concat (map (fun row => concat (map (fun c => concat (concat c)) row)) v).

(** [v = features; v = v / torch.linalg.norm(v)] *)
Definition normalize_c3d {N : Type} {arith : Arith N}
    (features : list (list N)) : list (list N) :=
  let v := features in
  map (map (fun x => divide x (norm (flatten_c3d v)))) v.

Definition normalize_i3d {N : Type} {arith : Arith N}
    (features : list (list (list (list (list N)))))
  : list (list (list (list (list N)))) :=
  let v := features in
  map (map (map (map (map (fun x => divide x (norm (flatten_i3d v))))))) v.

Local Open Scope R_scope.

(** Exact arithmetic: the real numbers, with the 2-norm as the square root
    of the sum of the squares.  It is what the two lines compute when
    nothing is rounded, nothing overflows and nothing underflows; the
    statements on real numbers below are statements about this instance. *)
Definition sum_sq (v : list R) : R :=
  fold_right (fun x acc => x * x + acc) 0 v.

Definition linalg_norm (flat : list R) : R := sqrt (sum_sq flat).

#[export] Instance exact_arith : Arith R :=
  {| zero := 0; divide := Rdiv; norm := linalg_norm |}.

(** Euclidean norm of one clip embedding (one row of the batch). *)
Definition row_norm (row : list R) : R := linalg_norm row.

Local Close Scope R_scope.

(** *** From the fixed tensor to the per-video array (lines 53-66, 109-121) *)

Section Reassembly.
(** What one row of the accumulator holds: the embedding of one clip. *)
Context {A : Type}.

(** [out[i].append(x)] *)
Fixpoint append_at {B : Type} (i : nat) (x : B) (out : list (list B))
  : list (list B) :=
  match out, i with
  | [], _ => []
  | l :: rest, O => (l ++ [x]) :: rest
  | l :: rest, S j => l :: append_at j x rest
  end.

(** The two nested loops filling [out]: for every batch and every crop,
    the rows of [full_features[batch_id, i]], cut to [:k] in the last
    batch only. *)
Definition gather (full_features : list (list (list A)))
    (n_batches n_crops : nat) (k : Z) : list (list (list A)) :=
  fold_left
    (fun out batch_id =>
       fold_left
         (fun out i =>
            let rows := nth i (nth batch_id full_features []) [] in
            if Z.of_nat batch_id =? Z.of_nat n_batches - 1
            then append_at i (slice_to k rows) out
            else append_at i rows out)
         (seq 0 n_crops) out)
    (seq 0 n_batches)
    (repeat [] n_crops).

(** What the loops append to [out[i]] for the batch [batch_id], as one
    expression; [gather_table] below shows [gather] to be its table. *)
Definition kept_rows (full_features : list (list (list A)))
    (n_batches : nat) (k : Z) (batch_id i : nat) : list A :=
  let rows := nth i (nth batch_id full_features []) [] in
  if Z.of_nat batch_id =? Z.of_nat n_batches - 1 then slice_to k rows else rows.

(** [np.concatenate(arrays, axis=0)]; an empty list of arrays raises
    [ValueError]. *)
Definition concatenate {B : Type} (arrays : list (list B)) : result (list B) :=
  match arrays with
  | [] => raise ValueError
  | _ => ret (concat arrays)
  end.

Definition zip_cons {E : Type} (col : list E) (rows : list (list E))
  : list (list E) :=
  map (fun p => fst p :: snd p) (combine col rows).

Fixpoint transpose_from {E : Type} (total : nat) (x : list (list E))
  : list (list E) :=
  match x with
  | [] => repeat [] total
  | c :: rest => zip_cons c (transpose_from total rest)
  end.

(** [x.transpose([1, 0, 2])] on an array given by its axis-0 entries. *)
Definition transpose_102 {E : Type} (x : list (list E)) : list (list E) :=
  transpose_from (length (hd [] x)) x.

(** Lines 53-64 (109-120): gather, concatenate per crop, stack the crops. *)
Definition collect (full_features : list (list (list A)))
    (n_batches n_crops : nat) (k : Z) : result (list (list A)) :=
  let out := gather full_features n_batches n_crops k in
  out <- mapM concatenate out ;;
  let out := map (fun i => [i]) out in
  concatenate out.

End Reassembly.

(** [x[0, 0, 0]] *)
Definition item000 {T : Type} (x : list (list (list T))) : result T :=
  match x with
  | ((t :: _) :: _) :: _ => ret t
  | _ => raise IndexError
  end.

(** Lines 109-121 of [extract_c3d_features]; rows are 4096-vectors. *)
Definition reassemble_c3d {T : Type} (full_features : list (list (list (list T))))
    (n_batches n_crops : nat) (k : Z) : result (list (list (list T))) :=
  out <- collect full_features n_batches n_crops k ;;
  ret (transpose_102 out).

(** Lines 53-66 of [extract_i3d_features]; rows are 1024 x 1 x 1 x 1, and
    [out[:, :, :, 0, 0, 0]] drops the three unit axes. *)
Definition reassemble_i3d {T : Type}
    (full_features : list (list (list (list (list (list (list T)))))))
    (n_batches n_crops : nat) (k : Z) : result (list (list (list T))) :=
  out <- collect full_features n_batches n_crops k ;;
  out <- mapM (mapM (mapM item000)) out ;;
  ret (transpose_102 out).

(** The I3D accumulator is allocated with three trailing unit axes
    ([1024, 1, 1, 1] at line 30): each number sits in a 1 x 1 x 1 block. *)
Definition with_unit_axes {T : Type} (full_features : list (list (list (list T))))
  : list (list (list (list (list (list (list T)))))) :=
  map (map (map (map (fun t => [[[t]]])))) full_features.

(** Shape tests on nested lists: [shape4 d0 d1 d2 d3 x] holds of what
    [torch.zeros((d0, d1, d2, d3))] allocates, however it is filled. *)
Definition shape3 {T : Type} (d0 d1 d2 : nat) (x : list (list (list T))) : bool :=
  (length x =? d0)%nat
  && forallb (fun a => (length a =? d1)%nat
                       && forallb (fun b => (length b =? d2)%nat) a) x.

Definition shape4 {T : Type} (d0 d1 d2 d3 : nat)
    (x : list (list (list (list T)))) : bool :=
  (length x =? d0)%nat && forallb (shape3 d1 d2 d3) x.

(** *** The two entry points *)

Section EntryPoints.
Variables Frame Crop Device : Type.
Variable read_and_crop : string -> string -> Frame.
(** [os.listdir] and [natsorted] *)
Variable listdir : string -> list string.
Variable natsorted : list string -> list string.
(** Crop [i] of a transformed frame, as selected by
    [batch_data[:, :, i, :, :, :]]. *)
Variable crop_of : nat -> Frame -> Crop.
(** [b_data.transpose(1, 2)]: on a torch tensor it exchanges the time and
    the channel axis; on a NumPy array of five axes, which is what
    [load_rgb_batch] of utils.py returns, two axes are not a permutation
    and the call raises [ValueError]. *)
Variable transpose_1_2 : list (list Crop) -> result (list (list Crop)).
(** The numbers of the feature tensors. *)
Context {Num : Type} {arith : Arith Num}.

(** The values that travel through the calls of the entry points. *)
Inductive value : Type :=
| VInt (z : Z)
| VStr (s : string)
| VFiles (l : list string)
| VArr1 (a : list Z)
| VArr2 (a : list (list Z))
| VArr3 (a : list (list (list Z)))
| VBatch (b : list (list Frame))
| VDevice (d : Device).

(** A function defined with [params] positional parameters, none of
    which has a default. *)
Record pydef : Type := { params : nat; body : list value -> result value }.

(** A call with positional arguments: the number of arguments has to be
    the number of parameters, or the call raises [TypeError] before the
    body runs. *)
Definition call (f : pydef) (args : list value) : result value :=
  if (length args =? params f)%nat then body f args else raise TypeError.

(** [def from_frames_to_clips(frames, chunk_size, frequency)] *)
Definition def_from_frames_to_clips : pydef :=
  {| params := 3;
     body := fun args =>
       match args with
       | [VFiles frames; VInt chunk_size; VInt frequency] =>
           a <- from_frames_to_clips frames chunk_size frequency ;;
           ret (VArr2 a)
       | _ => raise TypeError
       end |}.

(** [def split_clip_indices_into_batches(frame_indices, batch_size)] *)
Definition def_split_clip_indices_into_batches : pydef :=
  {| params := 2;
     body := fun args =>
       match args with
       | [VArr2 frame_indices; VInt batch_size] =>
           a <- split_clip_indices_into_batches frame_indices batch_size ;;
           ret (VArr3 a)
       | _ => raise TypeError
       end |}.

(** [def load_rgb_batch(frames_dir, rgb_files, frame_indices)] *)
Definition def_load_rgb_batch : pydef :=
  {| params := 3;
     body := fun args =>
       match args with
       | [VStr frames_dir; VFiles rgb_files; VArr2 frame_indices] =>
           b <- load_rgb_batch Frame read_and_crop frames_dir rgb_files
                  frame_indices ;;
           ret (VBatch b)
       | _ => raise TypeError
       end |}.

(** [a, b = v]: [v] is iterated along its first axis and has to yield
    exactly two items. *)
Definition unpack2 (v : value) : result (value * value) :=
  match v with
  | VArr3 [a; b] => ret (VArr2 a, VArr2 b)
  | VArr2 [a; b] => ret (VArr1 a, VArr1 b)
  | VArr1 [a; b] => ret (VInt a, VInt b)
  | VFiles [a; b] => ret (VStr a, VStr b)
  | VArr3 _ | VArr2 _ | VArr1 _ | VFiles _ => raise ValueError
  | _ => raise TypeError
  end.

Definition same_length {B : Type} (l : list (list B)) : bool :=
  forallb (fun g => (length g =? length (hd [] l))%nat) l.

(** [v.shape] *)
Definition shape (v : value) : result (list nat) :=
  match v with
  | VArr1 a => ret [length a]
  | VArr2 a =>
      ret (length a :: match a with [] => [] | w :: _ => [length w] end)
  | VArr3 a =>
      ret (length a ::
           match a with
           | g :: _ =>
               if same_length a
               then length g :: match g with [] => [] | w :: _ => [length w] end
               else []
           | [] => []
           end)
  | VBatch b => ret (batch_data_shape [length b; length (hd [] b)])
  | _ => raise TypeError
  end.

Definition shape_at (i : nat) (v : value) : result nat :=
  s <- shape v ;;
  match nth_error s i with
  | Some n => ret n
  | None => raise IndexError
  end.

(** [v[i]] for [i] produced by [range(v.shape[0])] *)
Definition index0 (v : value) (i : nat) : result value :=
  match v with
  | VArr3 a =>
      match nth_error a i with Some x => ret (VArr2 x) | None => raise IndexError end
  | VArr2 a =>
      match nth_error a i with Some x => ret (VArr1 x) | None => raise IndexError end
  | VArr1 a =>
      match nth_error a i with Some x => ret (VInt x) | None => raise IndexError end
  | _ => raise TypeError
  end.

Definition as_batch (v : value) : result (list (list Frame)) :=
  match v with VBatch b => ret b | _ => raise TypeError end.

Definition as_int (v : value) : result Z :=
  match v with VInt z => ret z | _ => raise TypeError end.

(** [full_features[batch_id, i, ...] = v]: [v] has the rows of the slot,
    or one row that is broadcast. *)
Definition assign {A : Type} (full_features : list (list (list A)))
    (batch_id i : nat) (v : list A) : result (list (list (list A))) :=
  let slab := nth batch_id full_features [] in
  let rows := nth i slab [] in
  if (length v =? length rows)%nat
  then ret (set_nth batch_id (set_nth i v slab) full_features)
  else match v with
       | [x] => ret (set_nth batch_id
                       (set_nth i (repeat x (length rows)) slab)
                       full_features)
       | _ => raise RuntimeError
       end.

(** The loop over the batches (lines 31-48, 87-104), for an accumulator
    with rows of type [A]. *)
Definition fill {A : Type} (extract : list (list Crop) -> list A)
    (device : Device) (temp_path : string) (rgb_files : list string)
    (frame_indices : value) (n_batches : nat)
    (full_features : list (list (list A)))
  : result (list (list (list A)) * option nat) :=
  foldM
    (fun st batch_id =>
       sub <- index0 frame_indices batch_id ;;
       bd <- call def_load_rgb_batch
               [VStr temp_path; VFiles rgb_files; sub; VDevice device] ;;
       batch_data <- as_batch bd ;;
       n_crops <- shape_at 2 bd ;;
       ff <- foldM
               (fun ff i =>
                  let b_data := map (map (crop_of i)) batch_data in
                  b_data <- transpose_1_2 b_data ;;
                  assign ff batch_id i (extract b_data))
               (seq 0 n_crops) (fst st) ;;
       ret (ff, Some n_crops))
    (seq 0 n_batches) (full_features, None).

(** [n_crops] is bound inside the loop over the batches only. *)
Definition bound (n_crops : option nat) : result nat :=
  match n_crops with Some n => ret n | None => raise NameError end.

Definition extract_i3d_features
    (model : list (list Crop) -> list (list (list (list (list Num)))))
    (device : Device) (clip_length : Z) (temp_path : string)
    (batch_size : Z) : result (list (list (list Num))) :=
  let rgb_files := natsorted (listdir temp_path) in
  frame_indices <-
    call def_from_frames_to_clips [VFiles rgb_files; VInt clip_length] ;;
  r <- call def_split_clip_indices_into_batches
         [frame_indices; VInt batch_size] ;;
  p <- unpack2 r ;;
  let frame_indices := fst p in
  let k := snd p in
  n_batches <- shape_at 0 frame_indices ;;
  n_clips_inside_a_batch <- shape_at 1 frame_indices ;;
  let full_features :=
    repeat (repeat (repeat (repeat [[[zero]]] 1024)
                           n_clips_inside_a_batch) 10) n_batches in
  st <- fill (fun b_data => normalize_i3d (model b_data))
          device temp_path rgb_files frame_indices n_batches
          full_features ;;
  n_crops <- bound (snd st) ;;
  k <- as_int k ;;
  reassemble_i3d (fst st) n_batches n_crops k.

Definition extract_c3d_features
    (model : list (list Crop) -> list (list Num))
    (device : Device) (clip_length : Z) (temp_path : string)
    (batch_size : Z) : result (list (list (list Num))) :=
  let rgb_files := natsorted (listdir temp_path) in
  frame_indices <-
    call def_from_frames_to_clips [VFiles rgb_files; VInt clip_length] ;;
  r <- call def_split_clip_indices_into_batches
         [frame_indices; VInt batch_size] ;;
  p <- unpack2 r ;;
  let frame_indices := fst p in
  let k := snd p in
  n_batches <- shape_at 0 frame_indices ;;
  n_clips_inside_a_batch <- shape_at 1 frame_indices ;;
  let full_features :=
    repeat (repeat (repeat (repeat zero 4096)
                           n_clips_inside_a_batch) 10) n_batches in
  st <- fill (fun b_data => normalize_c3d (model b_data))
          device temp_path rgb_files frame_indices n_batches
          full_features ;;
  n_crops <- bound (snd st) ;;
  k <- as_int k ;;
  reassemble_c3d (fst st) n_batches n_crops k.

End EntryPoints.

Arguments VInt {Frame Device} z.
Arguments VStr {Frame Device} s.
Arguments VFiles {Frame Device} l.
Arguments VArr1 {Frame Device} a.
Arguments VArr2 {Frame Device} a.
Arguments VArr3 {Frame Device} a.
Arguments VBatch {Frame Device} b.
Arguments VDevice {Frame Device} d.
Arguments call {Frame Device} f args.
Arguments params {Frame Device} p.
Arguments body {Frame Device} p args.
Arguments unpack2 {Frame Device} v.
Arguments def_from_frames_to_clips {Frame Device}.
Arguments def_split_clip_indices_into_batches {Frame Device}.
Arguments def_load_rgb_batch {Frame Device} read_and_crop.

End Main.

Import Main.

(** ** main.py: frames on disk and the name of the feature file *)

Module Driver.

Local Open Scope string_scope.

(** [s.split(sep)] for a separator of one character: the pieces between the
    occurrences of [sep], of which there is always at least one. *)
Fixpoint split_on (sep : ascii) (s : string) : list string :=
  match s with
  | EmptyString => [EmptyString]
  | String c rest =>
      if Ascii.eqb c sep then EmptyString :: split_on sep rest
      else match split_on sep rest with
           | w :: ws => String c w :: ws
           | [] => [String c EmptyString]
           end
  end.

(** [sep.join(pieces)] *)
Fixpoint join_with (sep : ascii) (pieces : list string) : string :=
  match pieces with
  | [] => EmptyString
  | [w] => w
  | w :: ws => w ++ String sep (join_with sep ws)
  end.

(** [c in s] *)
Fixpoint occurs (c : ascii) (s : string) : bool :=
  match s with
  | EmptyString => false
  | String x rest => Ascii.eqb x c || occurs c rest
  end.

(** [video.split("/")[-1].split(".")[0]] (line 183) *)
Definition video_name (video : string) : string :=
  hd EmptyString (split_on "." (last (split_on "/" video) EmptyString)).

(** [output_path + "/" + video_name], the file name given to [np.save]
    (line 184). *)
Definition feature_file (output_path video : string) : string :=
  output_path ++ "/" ++ video_name video.

(** [s.endswith("/")] *)
Fixpoint ends_with_slash (s : string) : bool :=
  match s with
  | EmptyString => false
  | String c EmptyString => Ascii.eqb c "/"
  | String _ rest => ends_with_slash rest
  end.

(** [os.path.join(a, b)] (posix): [b] alone when it is absolute, else [a]
    and [b] with one ["/"] between them unless [a] is empty or ends with
    one. *)
Definition path_join (a b : string) : string :=
  match b with
  | String "/" _ => b
  | _ =>
      match a with
      | EmptyString => b
      | _ => if ends_with_slash a then a ++ b else a ++ "/" ++ b
      end
  end.

(** ['image%d.jpg' % i] *)
Definition frame_file (i : nat) : string :=
  "image" ++ NilEmpty.string_of_uint (Nat.to_uint i) ++ ".jpg".

(** [temp_path = output_path + "/temp/"] (line 145) *)
Definition temp_path_of (output_path : string) : string :=
  output_path ++ "/temp/".

(** The process ends ([exit(message)]) or the function returns. *)
Inductive outcome (A : Type) : Type :=
| Exit (message : string)
| Done (a : A).
Arguments Exit {A} message.
Arguments Done {A} a.

(** [extract_frames_from_video(video_name, output_dir)].  The opened video
    is given by the frame count it reports and by [read i], the image the
    [i]-th [cap.read()] returns.  The result is the list of the pairs
    (path, image) handed to the pool of writers, each of which is written
    by [cv2.imwrite]. *)
Definition extract_frames_from_video {Img : Type} (frame_count : Z)
    (read : nat -> Img) (output_dir : string)
  : outcome (list (string * Img)) :=
  if (frame_count =? 0)%Z then Exit "Video file not found"
  else
    let indices := seq 0 (Z.to_nat frame_count) in
    let frames_to_save := map read indices in
    let frames_paths := map (fun i => path_join output_dir (frame_file i)) indices in
    Done (combine frames_paths frames_to_save).

End Driver.

Import Driver.


(** ** Ranges *)

Lemma range_length (a b : Z) : length (range a b) = Z.to_nat (b - a).
Proof. unfold range. now rewrite length_map, length_seq. Qed.

Lemma range_nth (a b : Z) (t : nat) (d : Z) :
  (t < Z.to_nat (b - a))%nat -> nth t (range a b) d = a + Z.of_nat t.
Proof.
  intros Ht. unfold range.
  rewrite (nth_indep _ d (a + Z.of_nat 0)) by (now rewrite length_map, length_seq).
  rewrite (map_nth (fun j => a + Z.of_nat j)), seq_nth by exact Ht.
  reflexivity.
Qed.

Lemma range_In (a b j : Z) : In j (range a b) <-> a <= j < b.
Proof.
  unfold range. rewrite in_map_iff. split.
  - intros (n & <- & Hn). apply in_seq in Hn. lia.
  - intros Hj. exists (Z.to_nat (j - a)). split; [lia|].
    apply in_seq. lia.
Qed.

(** ** The clip indexer *)

Lemma from_frames_to_clips_ok (F : Type) (frames : list F) (chunk_size frequency : Z) :
  Z.of_nat (length frames) > chunk_size -> frequency <> 0 ->
  from_frames_to_clips frames chunk_size frequency =
  ret (map (fun i => range (i * frequency) (i * frequency + chunk_size))
           (range 0 ((Z.of_nat (length frames) - chunk_size) / frequency + 1))).
Proof.
  intros Hcnt Hfreq. unfold from_frames_to_clips.
  replace (Z.of_nat (length frames) >? chunk_size) with true
    by (symmetry; apply Z.gtb_lt; lia).
  apply Z.eqb_neq in Hfreq. cbn [negb]. rewrite Hfreq.
  apply Z.eqb_neq in Hfreq. now rewrite Z.div_mul by exact Hfreq.
Qed.

Lemma from_frames_to_clips_short (F : Type) (frames : list F) (chunk_size frequency : Z) :
  Z.of_nat (length frames) <= chunk_size ->
  from_frames_to_clips frames chunk_size frequency = raise AssertionError.
Proof.
  intros Hcnt. unfold from_frames_to_clips.
  replace (Z.of_nat (length frames) >? chunk_size) with false; [reflexivity|].
  symmetry. rewrite Z.gtb_ltb. apply Z.ltb_ge. exact Hcnt.
Qed.

Lemma from_frames_to_clips_zero_frequency (F : Type) (frames : list F) (chunk_size : Z) :
  Z.of_nat (length frames) > chunk_size ->
  from_frames_to_clips frames chunk_size 0 = raise ZeroDivisionError.
Proof.
  intros Hcnt. unfold from_frames_to_clips.
  replace (Z.of_nat (length frames) >? chunk_size) with true
    by (symmetry; apply Z.gtb_lt; lia).
  reflexivity.
Qed.

(** C4.  With [frame_count > clip_length] (a length, so not negative) and
    [frequency >= 1], the indexer returns
    [((frame_count - clip_length) // frequency * frequency) / frequency + 1]
    windows; window [i] is the run of the frame indices from [i * frequency]
    up to, not including, [i * frequency + clip_length]; so it has
    [clip_length] entries, starts at a multiple of [frequency] that is not
    negative, and ends at or before [frame_count]. *)
Theorem clip_indexer_windows (F : Type) (frames : list F) (clip_length frequency : Z) :
  0 <= clip_length ->
  Z.of_nat (length frames) > clip_length ->
  frequency >= 1 ->
  let frame_count := Z.of_nat (length frames) in
  exists windows,
    from_frames_to_clips frames clip_length frequency = ret windows /\
    Z.of_nat (length windows) =
      ((frame_count - clip_length) / frequency * frequency) / frequency + 1 /\
    Forall (fun w => Z.of_nat (length w) = clip_length) windows /\
    forall i, 0 <= i < Z.of_nat (length windows) ->
      let w := nth (Z.to_nat i) windows [] in
      w = range (i * frequency) (i * frequency + clip_length) /\
      (forall j, In j w <-> i * frequency <= j < i * frequency + clip_length) /\
      (forall t, 0 <= t < clip_length ->
         nth (Z.to_nat t) w 0 = i * frequency + t) /\
      0 <= i * frequency /\
      i * frequency + clip_length <= frame_count.
Proof.
  intros Hcl Hcnt Hfreq frame_count.
  assert (Hf0 : frequency <> 0) by lia.
  eexists. split; [apply from_frames_to_clips_ok; [exact Hcnt | exact Hf0] |].
  fold frame_count.
  set (q := (frame_count - clip_length) / frequency).
  assert (Hq : 0 <= q) by (apply Z.div_pos; lia).
  assert (Hqle : q * frequency <= frame_count - clip_length).
  { unfold q. rewrite Z.mul_comm. apply Z.mul_div_le. lia. }
  rewrite Z.div_mul by exact Hf0.
  rewrite length_map, range_length.
  split; [lia|]. split.
  - apply Forall_forall. intros w Hw. apply in_map_iff in Hw.
    destruct Hw as (i & <- & _). rewrite range_length. lia.
  - intros i Hi w.
    assert (Hw : w = range (i * frequency) (i * frequency + clip_length)).
    { subst w.
      rewrite (nth_indep _ [] (range (0 * frequency) (0 * frequency + clip_length)))
        by (rewrite length_map, range_length; lia).
      rewrite (map_nth (fun i => range (i * frequency) (i * frequency + clip_length))).
      rewrite range_nth by lia. f_equal; lia. }
    split; [exact Hw|]. rewrite Hw. split; [intros j; apply range_In|].
    split.
    + intros t Ht. rewrite range_nth by lia. lia.
    + split; [nia|]. nia.
Qed.

Lemma clip_indexer_windows_witness :
  exists windows,
    from_frames_to_clips (repeat tt 20) 16 1 = ret windows /\
    Z.of_nat (length windows) = 5.
Proof.
  destruct (clip_indexer_windows unit (repeat tt 20) 16 1) as (ws & Hws & Hlen & _);
    [lia | simpl; lia | lia |].
  exists ws. split; [exact Hws | exact Hlen].
Defined.

(** C7.  The indexer raises its assertion error exactly when
    [frame_count <= clip_length] (so also when the two are equal); with
    more frames than [clip_length] it returns the windows, for every
    stride other than 0. *)
Theorem clip_indexer_rejects_short (F : Type) (frames : list F) (clip_length frequency : Z) :
  (from_frames_to_clips frames clip_length frequency = raise AssertionError
   <-> Z.of_nat (length frames) <= clip_length) /\
  (Z.of_nat (length frames) > clip_length -> frequency <> 0 ->
   exists windows, from_frames_to_clips frames clip_length frequency = ret windows).
Proof.
  split; [split|].
  - intros Hfail.
    destruct (Z_le_gt_dec (Z.of_nat (length frames)) clip_length) as [Hle|Hgt];
      [exact Hle|].
    destruct (Z.eq_dec frequency 0) as [->|Hf].
    + rewrite from_frames_to_clips_zero_frequency in Hfail by exact Hgt.
      discriminate Hfail.
    + rewrite from_frames_to_clips_ok in Hfail by assumption. discriminate Hfail.
  - apply from_frames_to_clips_short.
  - intros Hgt Hf. eexists. apply from_frames_to_clips_ok; assumption.
Qed.

Lemma clip_indexer_rejects_short_witness :
  from_frames_to_clips (repeat tt 16) 16 1 = raise AssertionError /\
  exists windows, from_frames_to_clips (repeat tt 17) 16 1 = ret windows.
Proof.
  split.
  - apply (proj1 (clip_indexer_rejects_short unit (repeat tt 16) 16 1)).
    simpl. lia.
  - apply (proj2 (clip_indexer_rejects_short unit (repeat tt 17) 16 1)).
    + simpl. lia.
    + discriminate.
Defined.

(** ** The batch partitioner *)

Lemma ceil_div_bounds (n c : Z) :
  0 <= n -> 1 <= c ->
  (ceil_div n c - 1) * c < n <= ceil_div n c * c.
Proof.
  intros Hn Hc. unfold ceil_div.
  pose proof (Z.div_mod (- n) c ltac:(lia)) as Hdm.
  pose proof (Z.mod_pos_bound (- n) c ltac:(lia)) as Hmod.
  nia.
Qed.

Lemma ceil_div_pos (n c : Z) : 1 <= n -> 1 <= c -> 1 <= ceil_div n c <= n.
Proof.
  intros Hn Hc. pose proof (ceil_div_bounds n c ltac:(lia) Hc) as Hb. nia.
Qed.

Lemma list_sum_repeat (x k : nat) : list_sum (repeat x k) = (k * x)%nat.
Proof. induction k as [|k IH]; simpl; [reflexivity | rewrite IH; lia]. Qed.

Lemma section_sizes_length (n b : nat) :
  (0 < b)%nat -> length (section_sizes n b) = b.
Proof.
  intros Hb. unfold section_sizes. rewrite length_app, !repeat_length.
  pose proof (Nat.mod_upper_bound n b ltac:(lia)). lia.
Qed.

Lemma section_sizes_sum (n b : nat) :
  (0 < b)%nat -> list_sum (section_sizes n b) = n.
Proof.
  intros Hb. unfold section_sizes. rewrite list_sum_app, !list_sum_repeat.
  pose proof (Nat.mod_upper_bound n b ltac:(lia)) as Hm.
  pose proof (Nat.div_mod_eq n b) as Hdm. nia.
Qed.

Lemma section_sizes_In (n b s : nat) :
  In s (section_sizes n b) -> s = (n / b)%nat \/ s = S (n / b).
Proof.
  unfold section_sizes. intros Hs. apply in_app_or in Hs.
  destruct Hs as [Hs|Hs]; apply repeat_spec in Hs; auto.
Qed.

Lemma section_sizes_sorted (n b : nat) : StronglySorted ge (section_sizes n b).
Proof.
  unfold section_sizes.
  generalize (n mod b)%nat as r, (b - n mod b)%nat as s, (n / b)%nat as q.
  intros r s q. induction r as [|r IH]; simpl.
  - induction s as [|s IHs]; simpl; constructor; [exact IHs|].
    apply Forall_forall. intros x Hx. apply repeat_spec in Hx. subst x.
    unfold ge. lia.
  - constructor; [exact IH|].
    apply Forall_forall. intros x Hx. apply in_app_or in Hx.
    destruct Hx as [Hx|Hx]; apply repeat_spec in Hx; subst x; unfold ge; lia.
Qed.

Lemma sections_length (A : Type) (sizes : list nat) (ary : list A) :
  length (sections sizes ary) = length sizes.
Proof.
  revert ary. induction sizes as [|s sizes IH]; intros ary; simpl;
    [reflexivity | now rewrite IH].
Qed.

Lemma sections_sizes (A : Type) (sizes : list nat) (ary : list A) :
  (list_sum sizes <= length ary)%nat ->
  map (@length A) (sections sizes ary) = sizes.
Proof.
  revert ary. induction sizes as [|s sizes IH]; intros ary Hsum; simpl in *;
    [reflexivity|].
  rewrite length_firstn, IH by (rewrite length_skipn; lia).
  f_equal. lia.
Qed.

Lemma sections_concat (A : Type) (sizes : list nat) (ary : list A) :
  list_sum sizes = length ary -> concat (sections sizes ary) = ary.
Proof.
  revert ary. induction sizes as [|s sizes IH]; intros ary Hsum; simpl in *.
  - symmetry in Hsum. apply length_zero_iff_nil in Hsum. now subst.
  - rewrite IH by (rewrite length_skipn; lia). apply firstn_skipn.
Qed.

Lemma forallb_repeat (A : Type) (f : A -> bool) (x : A) (k : nat) :
  f x = true -> forallb f (repeat x k) = true.
Proof.
  intros Hx. induction k as [|k IH]; [reflexivity|].
  cbn [repeat forallb]. now rewrite Hx, IH.
Qed.

(** [np.asarray] looks at the lengths of the arrays only. *)
Lemma asarray_sizes (A : Type) (arrays : list (list A)) :
  asarray arrays =
  if forallb (fun s => (s =? hd 0 (map (@length A) arrays))%nat)
             (map (@length A) arrays)
  then ret arrays else raise ValueError.
Proof.
  unfold asarray.
  replace (hd 0%nat (map (@length A) arrays)) with (length (hd [] arrays))
    by (now destruct arrays).
  generalize (length (hd [] arrays)). intros h.
  replace (forallb (fun s => (s =? h)%nat) (map (@length A) arrays))
    with (forallb (fun a : list A => (length a =? h)%nat) arrays);
    [reflexivity|].
  induction arrays as [|a arrays IH]; [reflexivity|].
  cbn [map forallb]. now rewrite IH.
Qed.

(** The sections of [np.array_split] have one length exactly when the
    section count divides the length of the array. *)
Lemma section_sizes_one_length (n b : nat) :
  (0 < b)%nat ->
  forallb (fun s => (s =? hd 0 (section_sizes n b))%nat) (section_sizes n b)
  = (n mod b =? 0)%nat.
Proof.
  intros Hb. pose proof (Nat.mod_upper_bound n b ltac:(lia)) as Hr.
  unfold section_sizes. destruct (n mod b)%nat as [|r].
  - cbn [repeat app]. rewrite Nat.sub_0_r.
    destruct b as [|b]; [lia|]. cbn [repeat hd forallb].
    rewrite Nat.eqb_refl. cbn [andb Nat.eqb].
    apply forallb_repeat, Nat.eqb_refl.
  - cbn [repeat app hd forallb]. rewrite Nat.eqb_refl. cbn [andb Nat.eqb].
    rewrite forallb_app.
    destruct (b - S r)%nat as [|k] eqn:Hk; [lia|].
    cbn [repeat forallb].
    replace (n / b =? S (n / b))%nat with false
      by (symmetry; apply Nat.eqb_neq; lia).
    cbn [andb]. apply andb_false_r.
Qed.

Lemma section_sizes_divides (n b : nat) :
  (n mod b = 0)%nat -> section_sizes n b = repeat (n / b)%nat b.
Proof.
  intros Hr. unfold section_sizes. rewrite Hr. cbn [repeat app].
  now rewrite Nat.sub_0_r.
Qed.

(** The call of [np.array_split] at line 29. *)
Lemma array_split_ok (W : Type) (windows : list W) (c : Z) :
  (1 <= length windows)%nat -> 1 <= c ->
  array_split windows (ceil_div (Z.of_nat (length windows)) c) =
  ret (sections
         (section_sizes (length windows)
            (Z.to_nat (ceil_div (Z.of_nat (length windows)) c)))
         windows).
Proof.
  intros Hn Hc. unfold array_split.
  pose proof (ceil_div_pos (Z.of_nat (length windows)) c ltac:(lia) Hc) as Hb.
  now replace (ceil_div (Z.of_nat (length windows)) c <=? 0) with false
    by (symmetry; apply Z.leb_gt; lia).
Qed.

(** The partitioner on [n >= 1] windows with a capacity [c >= 1]: the
    groups of [np.array_split] when [b = ceil(n / c)] divides [n], and
    [ValueError] from [np.asarray] when it does not. *)
Lemma split_cases (W : Type) (windows : list W) (c : Z) :
  (1 <= length windows)%nat -> 1 <= c ->
  split_clip_indices_into_batches windows c =
  if (length windows
      mod Z.to_nat (ceil_div (Z.of_nat (length windows)) c) =? 0)%nat
  then ret (sections
              (section_sizes (length windows)
                 (Z.to_nat (ceil_div (Z.of_nat (length windows)) c)))
              windows)
  else raise ValueError.
Proof.
  intros Hn Hc. unfold split_clip_indices_into_batches.
  pose proof (ceil_div_pos (Z.of_nat (length windows)) c ltac:(lia) Hc) as Hb.
  replace (c =? 0) with false by (symmetry; apply Z.eqb_neq; lia).
  cbv zeta. rewrite array_split_ok by assumption.
  set (b := Z.to_nat (ceil_div (Z.of_nat (length windows)) c)).
  assert (Hbpos : (0 < b)%nat) by (unfold b; lia).
  change (asarray (sections (section_sizes (length windows) b) windows) =
          if (length windows mod b =? 0)%nat
          then ret (sections (section_sizes (length windows) b) windows)
          else raise ValueError).
  rewrite asarray_sizes, sections_sizes
    by (rewrite section_sizes_sum by exact Hbpos; lia).
  now rewrite section_sizes_one_length by exact Hbpos.
Qed.

(** What the partitioner returns, when it returns: [b = ceil(n / c)] groups
    of [n // b] windows each, [b] dividing [n]. *)
Lemma split_returns (W : Type) (windows : list W) (c : Z)
    (batches : list (list W)) :
  (1 <= length windows)%nat -> 1 <= c ->
  split_clip_indices_into_batches windows c = ret batches ->
  let b := Z.to_nat (ceil_div (Z.of_nat (length windows)) c) in
  (length windows mod b = 0)%nat /\
  batches = sections (repeat (length windows / b)%nat b) windows.
Proof.
  intros Hn Hc Hrun b. rewrite split_cases in Hrun by assumption. fold b in Hrun.
  destruct (Nat.eqb_spec (length windows mod b) 0) as [Hr|Hr];
    [|discriminate Hrun].
  split; [exact Hr|]. rewrite section_sizes_divides in Hrun by exact Hr.
  now injection Hrun as <-.
Qed.



(** Groups of one size [m]: their count, their lengths, and what they hold
    when put end to end. *)
Lemma sections_repeat (A : Type) (m b : nat) (ary : list A) :
  length ary = (b * m)%nat ->
  length (sections (repeat m b) ary) = b /\
  concat (sections (repeat m b) ary) = ary /\
  Forall (fun g => length g = m) (sections (repeat m b) ary).
Proof.
  intros Hlen.
  assert (Hsum : list_sum (repeat m b) = length ary)
    by (rewrite list_sum_repeat; lia).
  split; [now rewrite sections_length, repeat_length|].
  split; [now apply sections_concat|].
  assert (Hsizes : map (@length A) (sections (repeat m b) ary) = repeat m b)
    by (apply sections_sizes; lia).
  apply Forall_forall. intros g Hg. apply (in_map (@length A)) in Hg.
  rewrite Hsizes in Hg. now apply repeat_spec in Hg.
Qed.

Lemma last_length_of_one_size (A : Type) (m : nat) (l : list (list A)) :
  l <> [] -> Forall (fun g => length g = m) l -> length (last l []) = m.
Proof.
  intros Hne Hall. rewrite Forall_forall in Hall. apply Hall.
  clear Hall. induction l as [|x l IH]; [contradiction|].
  destruct l as [|y l]; [now left|]. right. apply IH. discriminate.
Qed.

(** C5, on the code.  For [n >= 1] windows and a capacity [c >= 1],
    [np.array_split] forms the [ceil(n / c)] groups of the claim (the least
    [b] with [n <= b * c]): consecutive runs of the windows, sizes adding
    up to [n], never increasing, any two differing by at most one; ten
    windows in three groups come out as 4, 3, 3.  The partitioner returns
    these groups only when they have one size, that is when the group count
    divides [n] (eighteen windows with capacity 8: 6, 6, 6); when it does
    not, [np.asarray] raises [ValueError] (ten windows with capacity 4). *)
Theorem partition_even_split_unequal_groups_raise :
  (forall (W : Type) (windows : list W) (c : Z),
     (1 <= length windows)%nat -> 1 <= c ->
     let n := Z.of_nat (length windows) in
     exists groups,
       array_split windows (ceil_div n c) = ret groups /\
       Z.of_nat (length groups) = ceil_div n c /\
       (Z.of_nat (length groups) - 1) * c < n <= Z.of_nat (length groups) * c /\
       concat groups = windows /\
       list_sum (map (@length W) groups) = length windows /\
       StronglySorted ge (map (@length W) groups) /\
       (forall a b, In a (map (@length W) groups) ->
                    In b (map (@length W) groups) -> (a <= b + 1)%nat) /\
       split_clip_indices_into_batches windows c =
       if (length windows mod length groups =? 0)%nat
       then ret groups else raise ValueError) /\
  array_split (range 0 10) 3 = ret [[0; 1; 2; 3]; [4; 5; 6]; [7; 8; 9]] /\
  split_clip_indices_into_batches (range 0 10) 4 = raise ValueError /\
  split_clip_indices_into_batches (range 0 18) 8
  = ret [range 0 6; range 6 12; range 12 18].
Proof.
  split; [|split; [|split]; reflexivity].
  intros W windows c Hn Hc n.
  pose proof (ceil_div_pos n c ltac:(lia) Hc) as Hb.
  pose proof (ceil_div_bounds n c ltac:(lia) Hc) as Hbounds.
  set (b := Z.to_nat (ceil_div n c)).
  assert (Hbpos : (0 < b)%nat) by lia.
  assert (Hsizes : map (@length W) (sections (section_sizes (length windows) b) windows)
                   = section_sizes (length windows) b).
  { apply sections_sizes. rewrite section_sizes_sum by exact Hbpos. lia. }
  eexists. split; [apply array_split_ok; assumption |].
  fold n. fold b.
  rewrite sections_length, section_sizes_length by exact Hbpos.
  replace (Z.of_nat b) with (ceil_div n c) by lia.
  split; [reflexivity|]. split; [exact Hbounds|].
  split; [apply sections_concat, section_sizes_sum; exact Hbpos|].
  rewrite Hsizes.
  split; [apply section_sizes_sum; exact Hbpos|].
  split; [apply section_sizes_sorted|].
  split.
  - intros x y Hx Hy.
    apply section_sizes_In in Hx. apply section_sizes_In in Hy. lia.
  - apply split_cases; assumption.
Qed.

Lemma partition_even_split_unequal_groups_raise_witness :
  exists groups,
    array_split (range 0 10) (ceil_div 10 4) = ret groups /\
    Z.of_nat (length groups) = 3 /\
    list_sum (map (@length Z) groups) = 10%nat /\
    split_clip_indices_into_batches (range 0 10) 4 = raise ValueError.
Proof.
  destruct (proj1 partition_even_split_unequal_groups_raise Z (range 0 10) 4)
    as (groups & Hsplit & Hcount & _ & _ & Hsum & _ & _ & Hrun);
    [simpl; lia | lia |].
  exists groups. split; [exact Hsplit|]. split; [exact Hcount|].
  split; [exact Hsum | reflexivity].
Defined.

(** C8.  With no window at all the partitioner fails: the group count is
    0 and [np.array_split] rejects it with [ValueError] (a capacity of 0
    fails before that, on the division). *)
Theorem partition_empty_fails (W : Type) (c : Z) :
  split_clip_indices_into_batches (@nil W) c =
  raise (if c =? 0 then ZeroDivisionError else ValueError).
Proof.
  unfold split_clip_indices_into_batches, array_split, ceil_div.
  destruct (c =? 0); [reflexivity|].
  cbn [length Z.of_nat Z.opp]. rewrite Zdiv_0_l. reflexivity.
Qed.

(** C2, on the code.  The partitioner returns the array of the groups and
    nothing with it: no [valid_count].  Whenever it returns, for a
    non-empty sequence of [n] windows and a capacity [c >= 1], the
    [b = ceil(n / c)] groups are consecutive runs of [n // b] windows each,
    so every group is full length and the count of the final group is
    [n // b].  The caller unpacks the result into [frame_indices, k]: for
    five windows and capacity 8 the result is one group and the unpacking
    raises [ValueError]; for twelve windows it is two groups of six, and [k]
    is the second group, not a count. *)
Theorem partition_returns_no_valid_count :
  (forall (W : Type) (windows : list W) (c : Z) (batches : list (list W)),
     windows <> [] -> 1 <= c ->
     split_clip_indices_into_batches windows c = ret batches ->
     let b := length batches in
     let valid_count := length (last batches []) in
     Z.of_nat b = ceil_div (Z.of_nat (length windows)) c /\
     concat batches = windows /\
     valid_count = (length windows / b)%nat /\
     (1 <= valid_count)%nat /\
     Forall (fun g => length g = valid_count) batches) /\
  let five := map (fun start => range start (start + 16)) (range 0 5) in
  let twelve := map (fun start => range start (start + 16)) (range 0 12) in
  call (@def_split_clip_indices_into_batches unit unit) [VArr2 five; VInt 8]
  = ret (VArr3 [five]) /\
  (r <- call (@def_split_clip_indices_into_batches unit unit)
          [VArr2 five; VInt 8] ;;
   unpack2 r) = raise ValueError /\
  (r <- call (@def_split_clip_indices_into_batches unit unit)
          [VArr2 twelve; VInt 8] ;;
   unpack2 r) = ret (VArr2 (firstn 6 twelve), VArr2 (skipn 6 twelve)) /\
  as_int unit unit (VArr2 (skipn 6 twelve)) = raise TypeError.
Proof.
  split; [|repeat split; reflexivity].
  intros W windows c batches Hne Hc Hrun b valid_count.
  assert (Hn : (1 <= length windows)%nat).
  { destruct windows; [contradiction | simpl; lia]. }
  pose proof (ceil_div_pos (Z.of_nat (length windows)) c ltac:(lia) Hc) as Hb.
  destruct (split_returns W windows c batches Hn Hc Hrun) as [Hr Hbatches].
  set (b' := Z.to_nat (ceil_div (Z.of_nat (length windows)) c)) in *.
  assert (Hbpos : (0 < b')%nat) by (unfold b'; lia).
  pose proof (Nat.div_mod_eq (length windows) b') as Hdm.
  destruct (sections_repeat W (length windows / b') b' windows ltac:(lia))
    as (Hlen & Hconcat & Hall).
  rewrite <- Hbatches in Hlen, Hconcat, Hall.
  assert (Hbb : b = b') by exact Hlen.
  assert (Hlast : valid_count = (length windows / b')%nat).
  { apply last_length_of_one_size; [|exact Hall].
    intros ->. simpl in Hlen. lia. }
  rewrite Hbb, Hlast.
  split; [unfold b'; lia|]. split; [exact Hconcat|].
  split; [reflexivity|]. split; [|exact Hall].
  apply Nat.div_str_pos. unfold b'. lia.
Qed.

Lemma partition_returns_no_valid_count_witness :
  length (last [range 0 6; range 6 12; range 12 18] []) = (18 / 3)%nat /\
  Forall (fun g => length g = 6%nat) [range 0 6; range 6 12; range 12 18].
Proof.
  destruct (proj1 partition_returns_no_valid_count Z (range 0 18) 8
              [range 0 6; range 6 12; range 12 18])
    as (_ & _ & Hlast & _ & Hall);
    [discriminate | lia | reflexivity |].
  split; [exact Hlast | exact Hall].
Defined.

(** *** Where a window sits after the partition *)



(** ** Normalisation of the extracted features *)

Section Normalisation.
Local Open Scope R_scope.

(** The two divisions in exact arithmetic. *)
Lemma normalize_c3d_exact (v : list (list R)) :
  normalize_c3d v = map (map (fun x => x / linalg_norm (flatten_c3d v))) v.
Proof. reflexivity. Qed.

Lemma normalize_i3d_exact (v : list (list (list (list (list R))))) :
  normalize_i3d v =
  map (map (map (map (map (fun x => x / linalg_norm (flatten_i3d v)))))) v.
Proof. reflexivity. Qed.

Lemma sum_sq_app (u v : list R) : sum_sq (u ++ v) = sum_sq u + sum_sq v.
Proof.
  induction u as [|x u IH]; simpl; [lra | rewrite IH; lra].
Qed.

Lemma sum_sq_nonneg (v : list R) : 0 <= sum_sq v.
Proof.
  induction v as [|x v IH]; simpl; [lra | nra].
Qed.

Lemma sum_sq_zeros (n : nat) (c : R) : sum_sq (repeat (0 / c) n) = 0.
Proof.
  induction n as [|n IH]; simpl; [reflexivity|].
  rewrite IH. unfold Rdiv. lra.
Qed.

Lemma sum_sq_scale (v : list R) (c : R) :
  sum_sq (map (fun x => x / c) v) = sum_sq v * (/ c * / c).
Proof.
  induction v as [|x v IH]; simpl; [lra|].
  rewrite IH. unfold Rdiv. lra.
Qed.

Lemma map_repeat (A B : Type) (f : A -> B) (x : A) (n : nat) :
  map f (repeat x n) = repeat (f x) n.
Proof. induction n as [|n IH]; simpl; [reflexivity | now rewrite IH]. Qed.

Lemma concat_repeat_singleton (A : Type) (x : A) (n : nat) :
  concat (repeat [x] n) = repeat x n.
Proof. induction n as [|n IH]; simpl; [reflexivity | now rewrite IH]. Qed.

Lemma linalg_norm_head (x : R) (n : nat) :
  0 <= x -> linalg_norm (x :: repeat 0 n) = x.
Proof.
  intros Hx. unfold linalg_norm. simpl.
  replace (repeat 0 n) with (repeat (0 / 1) n) by (f_equal; lra).
  rewrite sum_sq_zeros, Rplus_0_r. now apply sqrt_square.
Qed.

Lemma linalg_norm_scaled_head (x c : R) (n : nat) :
  0 <= x / c -> linalg_norm (x / c :: repeat (0 / c) n) = x / c.
Proof.
  intros Hx. unfold linalg_norm. simpl.
  rewrite sum_sq_zeros, Rplus_0_r. now apply sqrt_square.
Qed.

Lemma flatten_c3d_normalize (v : list (list R)) :
  flatten_c3d (normalize_c3d v) =
  map (fun x => x / linalg_norm (flatten_c3d v)) (flatten_c3d v).
Proof.
  rewrite normalize_c3d_exact. unfold flatten_c3d. now rewrite concat_map.
Qed.

(** What the division does give, in exact arithmetic: the whole batch of
    one crop, taken as one vector, has norm 1. *)
Lemma normalize_c3d_batch_norm (v : list (list R)) :
  linalg_norm (flatten_c3d v) <> 0 ->
  linalg_norm (flatten_c3d (normalize_c3d v)) = 1.
Proof.
  intros Hnz. rewrite flatten_c3d_normalize.
  set (c := linalg_norm (flatten_c3d v)) in *.
  unfold linalg_norm at 1. rewrite sum_sq_scale.
  assert (Hc : c * c = sum_sq (flatten_c3d v)).
  { unfold c, linalg_norm. apply sqrt_sqrt, sum_sq_nonneg. }
  rewrite <- Hc.
  replace (c * c * (/ c * / c)) with 1 by (field; exact Hnz).
  apply sqrt_1.
Qed.

(** A batch holding a single clip is the case in which the clip has
    norm 1 (in exact arithmetic). *)
Lemma normalize_c3d_single_clip (row : list R) :
  row_norm row <> 0 ->
  map row_norm (normalize_c3d [row]) = [1].
Proof.
  intros Hnz.
  assert (Hflat : flatten_c3d [row] = row)
    by (unfold flatten_c3d; simpl; apply app_nil_r).
  pose proof (normalize_c3d_batch_norm [row]) as H.
  rewrite flatten_c3d_normalize, Hflat in H. specialize (H Hnz).
  rewrite normalize_c3d_exact. rewrite Hflat. simpl. unfold row_norm.
  now rewrite H.
Qed.

Lemma linalg_norm_two_clips (n : nat) :
  linalg_norm ((3 :: repeat 0 n) ++ (4 :: repeat 0 n)) = 5.
Proof.
  unfold linalg_norm. rewrite sum_sq_app. simpl.
  replace (repeat 0 n) with (repeat (0 / 1) n) by (f_equal; lra).
  rewrite sum_sq_zeros.
  replace (3 * 3 + 0 + (4 * 4 + 0)) with (5 * 5) by lra.
  apply sqrt_square. lra.
Qed.

Lemma normalize_c3d_two_clips (n : nat) :
  let features := [3 :: repeat 0 n; 4 :: repeat 0 n] in
  linalg_norm (flatten_c3d features) = 5 /\
  map row_norm features = [3; 4] /\
  normalize_c3d features =
    [3 / 5 :: repeat (0 / 5) n; 4 / 5 :: repeat (0 / 5) n] /\
  map row_norm (normalize_c3d features) = [3 / 5; 4 / 5].
Proof.
  intros features.
  assert (Hnorm : linalg_norm (flatten_c3d features) = 5).
  { unfold flatten_c3d, features. cbn [concat]. rewrite app_nil_r.
    apply linalg_norm_two_clips. }
  assert (Hout : normalize_c3d features =
                 [3 / 5 :: repeat (0 / 5) n; 4 / 5 :: repeat (0 / 5) n]).
  { rewrite normalize_c3d_exact. rewrite Hnorm. unfold features. cbn [map].
    now rewrite map_repeat. }
  split; [exact Hnorm|]. split.
  - unfold features, row_norm. cbn [map].
    rewrite !linalg_norm_head by lra. reflexivity.
  - split; [exact Hout|]. rewrite Hout. unfold row_norm. cbn [map].
    rewrite !linalg_norm_scaled_head by lra. reflexivity.
Qed.

Lemma normalize_i3d_two_clips (n : nat) :
  let features := [[[[3]]] :: repeat [[[0]]] n; [[[4]]] :: repeat [[[0]]] n] in
  flatten_i3d features = (3 :: repeat 0 n) ++ (4 :: repeat 0 n) /\
  normalize_i3d features =
    [[[[3 / 5]]] :: repeat [[[0 / 5]]] n; [[[4 / 5]]] :: repeat [[[0 / 5]]] n].
Proof.
  intros features.
  assert (Hflat : flatten_i3d features = (3 :: repeat 0 n) ++ (4 :: repeat 0 n)).
  { unfold flatten_i3d, features. cbn [map concat app].
    rewrite !map_repeat. cbn [concat app].
    rewrite !concat_repeat_singleton, app_nil_r. reflexivity. }
  split; [exact Hflat|].
  rewrite normalize_i3d_exact. rewrite Hflat, linalg_norm_two_clips.
  unfold features. cbn [map]. now rewrite !map_repeat.
Qed.

End Normalisation.

(** C1, on the code.  The features of one crop of a batch are divided by
    the norm of the whole batch, not row by row: for a batch of two clips
    with the C3D embeddings [(3, 0, ..., 0)] and [(4, 0, ..., 0)] the divisor
    is 5 for both rows, and the rows written to the accumulator have the
    norms 3/5 and 4/5, none of them 1.  The I3D path divides its
    [2 x 1024 x 1 x 1 x 1] features by the same 5. *)
Theorem normalize_divides_by_batch_norm :
  (let features := [3 :: repeat 0 4095; 4 :: repeat 0 4095] in
   linalg_norm (flatten_c3d features) = 5 /\
   map row_norm features = [3; 4] /\
   normalize_c3d features =
     [3 / 5 :: repeat (0 / 5) 4095; 4 / 5 :: repeat (0 / 5) 4095] /\
   map row_norm (normalize_c3d features) = [3 / 5; 4 / 5] /\
   Forall (fun row => row_norm row <> 1) (normalize_c3d features))%R /\
  (let features :=
     [[[[3]]] :: repeat [[[0]]] 1023; [[[4]]] :: repeat [[[0]]] 1023] in
   linalg_norm (flatten_i3d features) = 5 /\
   normalize_i3d features =
     [[[[3 / 5]]] :: repeat [[[0 / 5]]] 1023;
      [[[4 / 5]]] :: repeat [[[0 / 5]]] 1023])%R.
Proof.
  split.
  - intros features.
    destruct (normalize_c3d_two_clips 4095) as (Hnorm & Hrows & Hout & Hnorms).
    fold features in Hnorm, Hrows, Hout, Hnorms.
    repeat (split; [assumption|]).
    apply Forall_forall. intros row Hrow.
    apply (in_map row_norm) in Hrow. rewrite Hnorms in Hrow.
    destruct Hrow as [<-|[<-|[]]]; lra.
  - intros features.
    destruct (normalize_i3d_two_clips 1023) as (Hflat & Hout).
    fold features in Hflat, Hout.
    split; [|exact Hout]. rewrite Hflat. apply linalg_norm_two_clips.
Qed.

(** ** Reassembly of the accumulator *)

Section ReassemblyFacts.
Local Open Scope nat_scope.

Lemma fold_left_ext (S X : Type) (f g : S -> X -> S) (l : list X) (s : S) :
  (forall s x, f s x = g s x) -> fold_left f l s = fold_left g l s.
Proof.
  intros Hfg. revert s. induction l as [|x l IH]; intros s; simpl;
    [reflexivity | now rewrite Hfg, IH].
Qed.

Lemma append_at_table (B : Type) (g : nat -> list B) (x : B) (a n i : nat) :
  append_at i x (map g (seq a n)) =
  map (fun j => if j =? a + i then g j ++ [x] else g j) (seq a n).
Proof.
  revert a i. induction n as [|n IH]; intros a i; [destruct i; reflexivity|].
  destruct i as [|i]; cbn [seq map append_at].
  - rewrite Nat.add_0_r, Nat.eqb_refl. f_equal.
    apply map_ext_in. intros j Hj. apply in_seq in Hj.
    replace (j =? a) with false by (symmetry; apply Nat.eqb_neq; lia).
    reflexivity.
  - replace (a =? a + S i) with false by (symmetry; apply Nat.eqb_neq; lia).
    f_equal. rewrite IH. apply map_ext. intros j.
    now replace (S a + i) with (a + S i) by lia.
Qed.

(** One pass of the inner loop appends one piece to every crop. *)
Lemma inner_loop_table (B : Type) (g : nat -> list B) (p : nat -> B) (n_crops : nat) :
  fold_left (fun out i => append_at i (p i) out) (seq 0 n_crops)
    (map g (seq 0 n_crops)) =
  map (fun i => g i ++ [p i]) (seq 0 n_crops).
Proof.
  assert (H : forall t, t <= n_crops ->
    fold_left (fun out i => append_at i (p i) out) (seq 0 t) (map g (seq 0 n_crops)) =
    map (fun i => if i <? t then g i ++ [p i] else g i) (seq 0 n_crops)).
  { induction t as [|t IH]; intros Ht.
    - reflexivity.
    - rewrite seq_S, fold_left_app, IH by lia. cbn [fold_left Nat.add].
      rewrite append_at_table. apply map_ext_in. intros j Hj. cbn [Nat.add].
      destruct (Nat.eqb_spec j t) as [->|Hne].
      + replace (t <? t) with false by (symmetry; apply Nat.ltb_ge; lia).
        replace (t <? S t) with true by (symmetry; apply Nat.ltb_lt; lia).
        reflexivity.
      + destruct (Nat.ltb_spec j t) as [Hlt|Hge].
        * replace (j <? S t) with true by (symmetry; apply Nat.ltb_lt; lia).
          reflexivity.
        * replace (j <? S t) with false by (symmetry; apply Nat.ltb_ge; lia).
          reflexivity. }
  rewrite H by lia. apply map_ext_in. intros j Hj. apply in_seq in Hj.
  replace (j <? n_crops) with true by (symmetry; apply Nat.ltb_lt; lia).
  reflexivity.
Qed.

Context {A : Type}.

Lemma gather_table (full_features : list (list (list A)))
    (n_batches n_crops : nat) (k : Z) :
  gather full_features n_batches n_crops k =
  map (fun i => map (fun b => kept_rows full_features n_batches k b i)
                    (seq 0 n_batches))
      (seq 0 n_crops).
Proof.
  unfold gather.
  set (body := fun (out : list (list (list A))) (batch_id : nat) => fold_left _ _ out).
  assert (H : forall t,
    fold_left body (seq 0 t) (repeat [] n_crops) =
    map (fun i => map (fun b => kept_rows full_features n_batches k b i) (seq 0 t))
        (seq 0 n_crops)).
  { induction t as [|t IH].
    - cbn [seq fold_left map]. clear. generalize 0.
      induction n_crops as [|n IH]; intros a; [reflexivity|].
      cbn [repeat seq map]. now rewrite <- IH.
    - rewrite seq_S, fold_left_app, IH. cbn [fold_left Nat.add]. unfold body.
      rewrite (fold_left_ext _ _ _
                 (fun out i => append_at i (kept_rows full_features n_batches k t i) out))
        by (intros s x; unfold kept_rows; cbv zeta;
            destruct (Z.of_nat t =? Z.of_nat n_batches - 1)%Z; reflexivity).
      rewrite inner_loop_table. apply map_ext. intros i.
      now rewrite map_app. }
  apply H.
Qed.

Lemma mapM_ret (X Y : Type) (f : X -> result Y) (g : X -> Y) (l : list X) :
  (forall x, In x l -> f x = ret (g x)) -> mapM f l = ret (map g l).
Proof.
  induction l as [|x l IH]; intros H; [reflexivity|].
  cbn [mapM map]. rewrite (H x) by now left.
  cbn [bind ret]. rewrite IH by (intros y Hy; apply H; now right).
  reflexivity.
Qed.

Lemma concat_singletons (X : Type) (l : list X) :
  concat (map (fun x => [x]) l) = l.
Proof. induction l as [|x l IH]; simpl; [reflexivity | now rewrite IH]. Qed.

(** With at least one batch and one crop, [collect] returns for every
    crop the pieces of all batches, joined in batch order. *)
Lemma collect_table (full_features : list (list (list A)))
    (n_batches n_crops : nat) (k : Z) :
  1 <= n_batches -> 1 <= n_crops ->
  collect full_features n_batches n_crops k =
  ret (map (fun i => concat (map (fun b => kept_rows full_features n_batches k b i)
                                 (seq 0 n_batches)))
           (seq 0 n_crops)).
Proof.
  intros Hb Hc. unfold collect. rewrite gather_table.
  rewrite (mapM_ret _ _ concatenate (@concat A)).
  - cbn [bind ret]. rewrite map_map.
    destruct n_crops as [|n]; [lia|].
    cbn [seq map concatenate]. unfold ret. f_equal.
    cbn [concat app]. f_equal.
    rewrite <- map_map with (g := fun x => [x]). rewrite concat_singletons.
    now rewrite map_map.
  - intros x Hx. apply in_map_iff in Hx. destruct Hx as (i & <- & _).
    destruct n_batches as [|n]; [lia | reflexivity].
Qed.

Lemma block_div_mod (b m r : nat) :
  r < m -> (b * m + r) / m = b /\ (b * m + r) mod m = r.
Proof.
  intros Hr. split; symmetry.
  - apply (Nat.div_unique _ m b r); lia.
  - apply (Nat.mod_unique _ m b r); lia.
Qed.

Lemma list_is_table (l : list A) (g : nat -> A) (a len : nat) :
  length l = len ->
  (forall r, r < len -> nth_error l r = Some (g (a + r))) ->
  l = map g (seq a len).
Proof.
  intros Hlen Hnth. apply nth_error_ext. intros r.
  rewrite nth_error_map, nth_error_seq.
  destruct (Nat.ltb_spec r len) as [Hlt|Hge].
  - now rewrite Hnth.
  - cbn [option_map]. apply nth_error_None. lia.
Qed.

Lemma concat_blocks (g : nat -> A) (m t : nat) :
  concat (map (fun b => map g (seq (b * m) m)) (seq 0 t)) =
  map g (seq 0 (t * m)).
Proof.
  induction t as [|t IH]; [reflexivity|].
  rewrite seq_S, map_app, concat_app, IH. cbn [map concat Nat.add].
  rewrite app_nil_r, <- map_app. f_equal.
  replace (S t * m) with (t * m + m) by lia.
  now rewrite seq_app.
Qed.

(** The accumulator holds, for crop [i], the embedding [emb i w] of
    window [w] in row [w mod m] of batch [w / m]; the first [n_batches - 1]
    batches are full and the last one has [k] rows in use.  Then [collect]
    returns for every crop the embeddings of the windows, in window
    order, and nothing else. *)
Lemma collect_in_order (emb : nat -> nat -> A)
    (full_features : list (list (list A))) (n_batches n_crops m : nat) (k : Z) :
  1 <= n_batches -> 1 <= n_crops -> (0 <= k <= Z.of_nat m)%Z ->
  (forall b i, b < n_batches -> i < n_crops ->
     length (nth i (nth b full_features []) []) = m) ->
  (forall w i, w < (n_batches - 1) * m + Z.to_nat k -> i < n_crops ->
     nth_error (nth i (nth (w / m) full_features []) []) (w mod m)
     = Some (emb i w)) ->
  collect full_features n_batches n_crops k =
  ret (map (fun i => map (emb i) (seq 0 ((n_batches - 1) * m + Z.to_nat k)))
           (seq 0 n_crops)).
Proof.
  intros Hb Hc Hk Hrows Hlayout.
  rewrite collect_table by assumption. unfold ret. f_equal.
  apply map_ext_in. intros i Hi. apply in_seq in Hi.
  destruct n_batches as [|nb]; [lia|].
  replace (S nb - 1) with nb in * by lia.
  rewrite seq_S, map_app, concat_app. cbn [Nat.add map concat].
  rewrite app_nil_r, seq_app, map_app. cbn [Nat.add]. f_equal.
  - rewrite <- concat_blocks. f_equal.
    apply map_ext_in. intros b Hbin. apply in_seq in Hbin.
    unfold kept_rows. cbv zeta.
    replace (Z.of_nat b =? Z.of_nat (S nb) - 1)%Z with false
      by (symmetry; apply Z.eqb_neq; lia).
    apply list_is_table; [apply Hrows; lia|].
    intros r Hr. destruct (block_div_mod b m r Hr) as [Hdiv Hmod].
    rewrite <- (Hlayout (b * m + r)) by nia.
    now rewrite Hdiv, Hmod.
  - unfold kept_rows. cbv zeta.
    replace (Z.of_nat nb =? Z.of_nat (S nb) - 1)%Z with true
      by (symmetry; apply Z.eqb_eq; lia).
    unfold slice_to.
    replace (k <? 0)%Z with false by (symmetry; apply Z.ltb_ge; lia).
    apply list_is_table.
    + rewrite length_firstn, Hrows by lia. lia.
    + intros r Hr. rewrite nth_error_firstn.
      replace (r <? Z.to_nat k) with true by (symmetry; apply Nat.ltb_lt; lia).
      assert (Hrm : r < m) by lia.
      destruct (block_div_mod nb m r Hrm) as [Hdiv Hmod].
      rewrite <- (Hlayout (nb * m + r)) by lia.
      now rewrite Hdiv, Hmod.
Qed.

End ReassemblyFacts.

Section TransposeFacts.
Local Open Scope nat_scope.
Context {E : Type}.

Lemma combine_tables (X Y Z' : Type) (g : X -> Y) (h : X -> Z') (l : list X) :
  combine (map g l) (map h l) = map (fun x => (g x, h x)) l.
Proof. induction l as [|x l IH]; simpl; [reflexivity | now rewrite IH]. Qed.

Lemma repeat_nil_table (n a : nat) :
  repeat (@nil E) n = map (fun _ => []) (seq a n).
Proof.
  revert a. induction n as [|n IH]; intros a; simpl;
    [reflexivity | now rewrite <- IH].
Qed.

(** Transposing a table given crop by crop gives it window by window. *)
Lemma transpose_from_table (f : nat -> nat -> E) (total a len : nat) :
  transpose_from total (map (fun i => map (f i) (seq 0 total)) (seq a len)) =
  map (fun w => map (fun i => f i w) (seq a len)) (seq 0 total).
Proof.
  revert a. induction len as [|len IH]; intros a.
  - cbn [seq map transpose_from]. apply repeat_nil_table.
  - cbn [seq map transpose_from]. rewrite IH. unfold zip_cons.
    rewrite combine_tables, map_map. reflexivity.
Qed.

Lemma transpose_102_table (f : nat -> nat -> E) (total n_crops : nat) :
  1 <= n_crops ->
  transpose_102 (map (fun i => map (f i) (seq 0 total)) (seq 0 n_crops)) =
  map (fun w => map (fun i => f i w) (seq 0 n_crops)) (seq 0 total).
Proof.
  intros Hc. unfold transpose_102.
  destruct n_crops as [|n]; [lia|].
  cbn [seq map hd]. rewrite length_map, length_seq.
  apply (transpose_from_table f total 0 (S n)).
Qed.

End TransposeFacts.

Section ReassembledOutput.
Local Open Scope nat_scope.
Context {T : Type}.

Lemma mapM_map_ret (X Y : Type) (f : Y -> result X) (h : X -> Y) (l : list X) :
  (forall x, f (h x) = ret x) -> mapM f (map h l) = ret l.
Proof.
  intros H. induction l as [|x l IH]; [reflexivity|].
  cbn [map mapM]. rewrite H. cbn [bind ret]. rewrite IH. reflexivity.
Qed.

(** Dropping the unit axes of a table of blocks gives the table back. *)
Lemma drop_unit_axes (table : list (list (list T))) :
  mapM (mapM (mapM item000))
       (map (map (map (fun t : T => [[[t]]]))) table) = ret table.
Proof.
  apply mapM_map_ret. intros crop.
  apply mapM_map_ret. intros e.
  apply mapM_map_ret. intros t. reflexivity.
Qed.

Lemma nth_map_nil (X Y : Type) (f : X -> Y) (l : list (list X)) (n : nat) :
  nth n (map (map f) l) [] = map f (nth n l []).
Proof. exact (map_nth (map f) l [] n). Qed.

Lemma with_unit_axes_rows (full_features : list (list (list (list T)))) (b i : nat) :
  nth i (nth b (with_unit_axes full_features) []) [] =
  map (map (fun t : T => [[[t]]])) (nth i (nth b full_features []) []).
Proof.
  unfold with_unit_axes. now rewrite !nth_map_nil.
Qed.

Variables (emb : nat -> nat -> list T)
          (full_features : list (list (list (list T))))
          (n_batches n_crops m : nat) (k : Z).
Hypothesis Hbatches : 1 <= n_batches.
Hypothesis Hcrops : 1 <= n_crops.
Hypothesis Hk : (0 <= k <= Z.of_nat m)%Z.
Hypothesis Hrows : forall b i, b < n_batches -> i < n_crops ->
  length (nth i (nth b full_features []) []) = m.
Hypothesis Hlayout : forall w i,
  w < (n_batches - 1) * m + Z.to_nat k -> i < n_crops ->
  nth_error (nth i (nth (w / m) full_features []) []) (w mod m) = Some (emb i w).

Lemma reassemble_c3d_in_order :
  reassemble_c3d full_features n_batches n_crops k =
  ret (map (fun w => map (fun i => emb i w) (seq 0 n_crops))
           (seq 0 ((n_batches - 1) * m + Z.to_nat k))).
Proof.
  unfold reassemble_c3d.
  rewrite (collect_in_order emb full_features n_batches n_crops m k) by assumption.
  cbn [bind ret]. now rewrite transpose_102_table.
Qed.

Lemma reassemble_i3d_in_order :
  reassemble_i3d (with_unit_axes full_features) n_batches n_crops k =
  ret (map (fun w => map (fun i => emb i w) (seq 0 n_crops))
           (seq 0 ((n_batches - 1) * m + Z.to_nat k))).
Proof.
  unfold reassemble_i3d.
  rewrite (collect_in_order
             (fun i w => map (fun t : T => [[[t]]]) (emb i w))
             (with_unit_axes full_features) n_batches n_crops m k);
    try assumption.
  - cbn [bind ret].
    set (n := (n_batches - 1) * m + Z.to_nat k).
    assert (Htable :
      map (fun i => map (fun w => map (fun t : T => [[[t]]]) (emb i w)) (seq 0 n))
          (seq 0 n_crops) =
      map (map (map (fun t : T => [[[t]]])))
          (map (fun i => map (emb i) (seq 0 n)) (seq 0 n_crops))).
    { rewrite map_map. apply map_ext. intros i. now rewrite map_map. }
    rewrite Htable, drop_unit_axes. cbn [bind ret].
    now rewrite transpose_102_table.
  - intros b i Hb Hi. rewrite with_unit_axes_rows, length_map. now apply Hrows.
  - intros w i Hw Hi. rewrite with_unit_axes_rows, nth_error_map.
    now rewrite Hlayout.
Qed.

End ReassembledOutput.

Section Shapes.
Local Open Scope nat_scope.
Context {T : Type}.

Lemma forallb_nth (X : Type) (p : X -> bool) (l : list X) (n : nat) (d : X) :
  forallb p l = true -> n < length l -> p (nth n l d) = true.
Proof.
  intros Hall Hn. rewrite forallb_forall in Hall. apply Hall, nth_In, Hn.
Qed.

Lemma shape3_inv (d0 d1 d2 : nat) (x : list (list (list T))) (a b : nat) :
  shape3 d0 d1 d2 x = true -> a < d0 ->
  length x = d0 /\
  length (nth a x []) = d1 /\
  (b < d1 -> length (nth b (nth a x []) []) = d2).
Proof.
  unfold shape3. intros H Ha.
  apply andb_true_iff in H. destruct H as [Hlen Hall].
  apply Nat.eqb_eq in Hlen. split; [exact Hlen|].
  pose proof (forallb_nth _ _ x a [] Hall ltac:(lia)) as Hrow.
  cbv beta in Hrow. apply andb_true_iff in Hrow. destruct Hrow as [Hl1 Hall1].
  apply Nat.eqb_eq in Hl1. split; [exact Hl1|].
  intros Hb.
  pose proof (forallb_nth _ _ (nth a x []) b [] Hall1 ltac:(lia)) as Hcell.
  now apply Nat.eqb_eq in Hcell.
Qed.

Lemma shape4_inv (d0 d1 d2 d3 : nat) (x : list (list (list (list T)))) (a : nat) :
  shape4 d0 d1 d2 d3 x = true -> a < d0 ->
  shape3 d1 d2 d3 (nth a x []) = true.
Proof.
  unfold shape4. intros H Ha.
  apply andb_true_iff in H. destruct H as [Hlen Hall].
  apply Nat.eqb_eq in Hlen.
  apply (forallb_nth _ _ x a [] Hall). lia.
Qed.

Lemma nth_table (X : Type) (f : nat -> X) (n w : nat) (d : X) :
  w < n -> nth w (map f (seq 0 n)) d = f w.
Proof.
  intros Hw. rewrite (nth_indep _ d (f 0)) by now rewrite length_map, length_seq.
  now rewrite (map_nth f), seq_nth.
Qed.

End Shapes.

(** ** The per-video array *)


(** The crop count both paths read from [batch_data.shape[2]]. *)
Lemma n_crops_is_ten (n_clips clip_length : nat) :
  nth 2 (batch_data_shape [n_clips; clip_length]) 0%nat = 10%nat.
Proof. reflexivity. Qed.

(** C9, as the code has it.  On accumulators of the shape
    [n_batches x 10 x n_clips_inside_a_batch x embedding_dim] holding the
    same numbers (the I3D one with its three unit axes), both paths return
    the same array: it has the shape [total_clips x 10 x embedding_dim],
    and its entry for clip [w] and crop [i] is row [w mod m] of crop [i] of
    batch [w / m].  Both apply the one transposition [[1, 0, 2]]; neither is
    transposed with respect to the other. *)
Theorem both_paths_same_shape_and_axes (T : Type)
    (full_features : list (list (list (list T))))
    (n_batches n_clips_inside_a_batch clip_length embedding_dim : nat) (k : Z) :
  let m := n_clips_inside_a_batch in
  let n_crops := nth 2 (batch_data_shape [m; clip_length]) 0%nat in
  (1 <= n_batches)%nat ->
  0 <= k <= Z.of_nat m ->
  shape4 n_batches n_crops m embedding_dim full_features = true ->
  let total_clips := ((n_batches - 1) * m + Z.to_nat k)%nat in
  exists video,
    reassemble_c3d full_features n_batches n_crops k = ret video /\
    reassemble_i3d (with_unit_axes full_features) n_batches n_crops k = ret video /\
    shape3 total_clips 10 embedding_dim video = true /\
    forall w i, (w < total_clips)%nat -> (i < 10)%nat ->
      nth i (nth w video []) [] =
      nth (w mod m) (nth i (nth (w / m) full_features []) []) [].
Proof.
  intros m n_crops Hb Hk Hshape total_clips.
  change n_crops with 10%nat in *.
  set (emb := fun i w => nth (w mod m) (nth i (nth (w / m) full_features []) []) []).
  assert (Hrows : forall b i, (b < n_batches)%nat -> (i < 10)%nat ->
            length (nth i (nth b full_features []) []) = m /\
            forall r, (r < m)%nat ->
              length (nth r (nth i (nth b full_features []) []) []) = embedding_dim).
  { intros b i Hbb Hi.
    pose proof (shape4_inv _ _ _ _ _ b Hshape Hbb) as Hbatch.
    split.
    - destruct (shape3_inv _ _ _ _ i 0%nat Hbatch Hi) as (_ & Hlen & _).
      exact Hlen.
    - intros r Hr.
      pose proof (shape4_inv _ _ _ _ _ b Hshape Hbb) as Hbatch'.
      unfold shape3 in Hbatch'. apply andb_true_iff in Hbatch'.
      destruct Hbatch' as [Hl Hall]. apply Nat.eqb_eq in Hl.
      pose proof (forallb_nth _ _ _ i [] Hall ltac:(lia)) as Hcrop.
      cbv beta in Hcrop. apply andb_true_iff in Hcrop.
      destruct Hcrop as [Hl1 Hall1]. apply Nat.eqb_eq in Hl1.
      pose proof (forallb_nth _ _ _ r [] Hall1 ltac:(lia)) as Hcell.
      now apply Nat.eqb_eq in Hcell. }
  assert (Hpos : forall w, (w < total_clips)%nat ->
            (w / m < n_batches)%nat /\ (w mod m < m)%nat).
  { intros w Hw. unfold total_clips in Hw.
    assert (Hm : (m <> 0)%nat) by (intros ->; lia).
    split; [apply Nat.Div0.div_lt_upper_bound; nia | now apply Nat.mod_upper_bound]. }
  assert (Hlayout : forall w i, (w < total_clips)%nat -> (i < 10)%nat ->
            nth_error (nth i (nth (w / m) full_features []) []) (w mod m)
            = Some (emb i w)).
  { intros w i Hw Hi. destruct (Hpos w Hw) as [Hdiv Hmod].
    apply nth_error_nth'. destruct (Hrows (w / m)%nat i Hdiv Hi) as [-> _].
    exact Hmod. }
  exists (map (fun w => map (fun i => emb i w) (seq 0 10)) (seq 0 total_clips)).
  split; [|split; [|split]].
  - apply (reassemble_c3d_in_order emb full_features n_batches 10 m k);
      try assumption; try lia.
    intros b i Hbb Hi. now destruct (Hrows b i Hbb Hi).
  - apply (reassemble_i3d_in_order emb full_features n_batches 10 m k);
      try assumption; try lia.
    intros b i Hbb Hi. now destruct (Hrows b i Hbb Hi).
  - unfold shape3. rewrite length_map, length_seq, Nat.eqb_refl. cbn [andb].
    apply forallb_forall. intros clip Hclip. apply in_map_iff in Hclip.
    destruct Hclip as (w & <- & Hw). apply in_seq in Hw.
    rewrite length_map, length_seq. cbn [Nat.eqb andb].
    apply forallb_forall. intros e He. apply in_map_iff in He.
    destruct He as (i & <- & Hi). apply in_seq in Hi.
    apply Nat.eqb_eq. unfold emb.
    destruct (Hpos w ltac:(lia)) as [Hdiv Hmod].
    destruct (Hrows (w / m)%nat i Hdiv ltac:(lia)) as [_ Hdim].
    now apply Hdim.
  - intros w i Hw Hi.
    rewrite (nth_table _ (fun w => map (fun i => emb i w) (seq 0 10))) by exact Hw.
    now rewrite (nth_table _ (fun i => emb i w)) by exact Hi.
Qed.

Lemma both_paths_same_shape_and_axes_witness :
  exists video,
    reassemble_c3d [map (fun i => [[Z.of_nat i; 0]; [Z.of_nat i; 1]]) (seq 0 10)]
                   1 10 2 = ret video /\
    reassemble_i3d
      (with_unit_axes [map (fun i => [[Z.of_nat i; 0]; [Z.of_nat i; 1]]) (seq 0 10)])
      1 10 2 = ret video /\
    shape3 2 10 2 video = true.
Proof.
  destruct (both_paths_same_shape_and_axes Z
              [map (fun i => [[Z.of_nat i; 0]; [Z.of_nat i; 1]]) (seq 0 10)]
              1 2 16 2 2)
    as (video & Hc3d & Hi3d & Hshape & _).
  - lia.
  - simpl. lia.
  - reflexivity.
  - exists video. split; [exact Hc3d|]. split; [exact Hi3d | exact Hshape].
Defined.

(** C9, as the claim has it, fails: for one batch of two clips with ten
    crops the I3D array is the C3D array, 2 x 10 x 2, and not that array
    with its clip and crop axes exchanged, which is 10 x 2 x 2. *)
Lemma i3d_not_transposed_against_c3d :
  let full_features :=
    [map (fun i => [[Z.of_nat i; 0]; [Z.of_nat i; 1]]) (seq 0 10)] in
  exists video,
    reassemble_c3d full_features 1 10 2 = ret video /\
    reassemble_i3d (with_unit_axes full_features) 1 10 2 = ret video /\
    shape3 2 10 2 video = true /\
    shape3 10 2 2 (transpose_102 video) = true /\
    reassemble_i3d (with_unit_axes full_features) 1 10 2
      <> ret (transpose_102 video).
Proof.
  eexists. split; [reflexivity|]. split; [reflexivity|].
  split; [reflexivity|]. split; [reflexivity|].
  intros H. apply (f_equal (fun r => match r with
                                     | inr v => length v
                                     | inl _ => 0%nat
                                     end)) in H.
  vm_compute in H. discriminate H.
Qed.

(** ** The entry points *)

Section EntryPointFacts.
Variables Frame Crop Device : Type.
Variable read_and_crop : string -> string -> Frame.
Variable listdir : string -> list string.
Variable natsorted : list string -> list string.
Variable crop_of : nat -> Frame -> Crop.
Variable transpose_1_2 : list (list Crop) -> result (list (list Crop)).

(** C3.  Whatever the frame store holds (so also with more than
    [clip_length] frames), whatever the extractor, both entry points
    raise [TypeError] at their first call: [from_frames_to_clips] has three
    parameters without default and gets two arguments.  Nothing is
    extracted before that.  The call of [load_rgb_batch], with three
    parameters, gets four arguments and raises [TypeError] as well; with
    three arguments each, both calls run the function. *)
Theorem entry_points_raise_type_error
    (i3d : list (list Crop) -> list (list (list (list (list R)))))
    (c3d : list (list Crop) -> list (list R))
    (device : Device) (clip_length : Z) (temp_path : string) (batch_size : Z) :
  extract_i3d_features Frame Crop Device read_and_crop listdir natsorted
    crop_of transpose_1_2 i3d device clip_length temp_path batch_size = raise TypeError /\
  extract_c3d_features Frame Crop Device read_and_crop listdir natsorted
    crop_of transpose_1_2 c3d device clip_length temp_path batch_size = raise TypeError /\
  params (@def_from_frames_to_clips Frame Device) = 3%nat /\
  (forall rgb_files : list string,
     call (@def_from_frames_to_clips Frame Device)
          [VFiles rgb_files; VInt clip_length] = raise TypeError) /\
  (forall (rgb_files : list string) (frequency : Z),
     call (@def_from_frames_to_clips Frame Device)
          [VFiles rgb_files; VInt clip_length; VInt frequency]
     = (a <- from_frames_to_clips rgb_files clip_length frequency ;;
        ret (VArr2 a))) /\
  params (def_load_rgb_batch (Device := Device) read_and_crop) = 3%nat /\
  (forall (rgb_files : list string) (sub : value Frame Device),
     call (def_load_rgb_batch read_and_crop)
          [VStr temp_path; VFiles rgb_files; sub; VDevice device]
     = raise TypeError) /\
  (forall (rgb_files : list string) (frame_indices : list (list Z)),
     call (def_load_rgb_batch (Device := Device) read_and_crop)
          [VStr temp_path; VFiles rgb_files; VArr2 frame_indices]
     = (b <- load_rgb_batch Frame read_and_crop temp_path rgb_files
               frame_indices ;;
        ret (VBatch b))).
Proof.
  repeat split; reflexivity.
Qed.

End EntryPointFacts.

(** ** The scenario of a video of 20 frames *)

(** C10, on the code.  For 20 frames, [clip_length = 16], [frequency = 1]
    and [batch_size = 8]: the indexer returns the five windows starting at
    0, 1, 2, 3 and 4; the partitioner returns one group holding the five of
    them, and nothing else, so that the unpacking [frame_indices, k = ...]
    of line 24 fails; and the entry points, which call the indexer without a
    frequency, raise [TypeError]: no array of shape [5 x 10 x embedding_dim]
    is returned. *)
Theorem twenty_frame_scenario :
  let rgb_files :=
      ["image0.jpg"; "image1.jpg"; "image2.jpg"; "image3.jpg";
       "image4.jpg"; "image5.jpg"; "image6.jpg"; "image7.jpg";
       "image8.jpg"; "image9.jpg"; "image10.jpg"; "image11.jpg";
       "image12.jpg"; "image13.jpg"; "image14.jpg"; "image15.jpg";
       "image16.jpg"; "image17.jpg"; "image18.jpg"; "image19.jpg"]%string in
  let windows := map (fun start => range start (start + 16)) [0; 1; 2; 3; 4] in
  length rgb_files = 20%nat /\
  from_frames_to_clips rgb_files 16 1 = ret windows /\
  split_clip_indices_into_batches windows 8 = ret [windows] /\
  length (last [windows] []) = 5%nat /\
  @unpack2 unit unit (VArr3 [windows]) = raise ValueError /\
  (forall (Frame Crop Device : Type) (read_and_crop : string -> string -> Frame)
          (crop_of : nat -> Frame -> Crop)
          (transpose_1_2 : list (list Crop) -> result (list (list Crop)))
          (i3d : list (list Crop) -> list (list (list (list (list R)))))
          (c3d : list (list Crop) -> list (list R))
          (device : Device) (temp_path : string),
     extract_i3d_features Frame Crop Device read_and_crop
       (fun _ => rgb_files) (fun files => files) crop_of transpose_1_2 i3d
       device 16 temp_path 8
     = raise TypeError /\
     extract_c3d_features Frame Crop Device read_and_crop
       (fun _ => rgb_files) (fun files => files) crop_of transpose_1_2 c3d
       device 16 temp_path 8
     = raise TypeError).
Proof.
  intros rgb_files windows.
  split; [reflexivity|]. split; [reflexivity|]. split; [reflexivity|].
  split; [reflexivity|]. split; [reflexivity|].
  intros. split; reflexivity.
Qed.

(** * Further properties of the code *)

(** ** The name of the feature file *)

Section FileNames.
Local Open Scope string_scope.

Lemma split_on_nonempty (sep : ascii) (s : string) : split_on sep s <> [].
Proof.
  destruct s as [|c rest]; cbn [split_on]; [discriminate|].
  destruct (Ascii.eqb c sep); [discriminate|].
  destruct (split_on sep rest); discriminate.
Qed.

Lemma split_on_free (sep : ascii) (s : string) :
  occurs sep s = false -> split_on sep s = [s].
Proof.
  induction s as [|c rest IH]; cbn [occurs split_on]; [reflexivity|].
  intros H. apply orb_false_iff in H. destruct H as [Hc Hrest].
  rewrite Hc, (IH Hrest). reflexivity.
Qed.

Lemma occurs_app (c : ascii) (s t : string) :
  occurs c (s ++ t) = occurs c s || occurs c t.
Proof.
  induction s as [|x s IH]; cbn [append occurs]; [reflexivity|].
  now rewrite IH, orb_assoc.
Qed.

Lemma split_on_pieces_free (sep : ascii) (s : string) :
  Forall (fun w => occurs sep w = false) (split_on sep s).
Proof.
  induction s as [|c rest IH]; cbn [split_on].
  - repeat constructor.
  - destruct (Ascii.eqb c sep) eqn:Hc.
    + constructor; [reflexivity | exact IH].
    + destruct (split_on sep rest) as [|w ws].
      * constructor; [cbn [occurs]; now rewrite Hc | constructor].
      * inversion IH as [|? ? Hw Hws]; subst.
        constructor; [cbn [occurs]; now rewrite Hc, Hw | exact Hws].
Qed.

Lemma join_split_on (sep : ascii) (s : string) :
  join_with sep (split_on sep s) = s.
Proof.
  induction s as [|c rest IH]; cbn [split_on]; [reflexivity|].
  destruct (Ascii.eqb_spec c sep) as [->|Hne].
  - pose proof (split_on_nonempty sep rest) as Hne.
    destruct (split_on sep rest) as [|w ws]; [contradiction|].
    cbn [join_with append] in *. now rewrite IH.
  - pose proof (split_on_nonempty sep rest) as Hnil.
    destruct (split_on sep rest) as [|w ws]; [contradiction|].
    destruct ws as [|w' ws]; cbn [join_with append] in *; now rewrite <- IH.
Qed.

Lemma last_In (A : Type) (l : list A) (d : A) : l <> [] -> In (last l d) l.
Proof.
  induction l as [|x l IH]; [contradiction|]. intros _.
  destruct l as [|y l]; [now left|].
  right. apply IH. discriminate.
Qed.

(** After the last separator comes the last piece. *)
Lemma last_split_on (sep : ascii) (d b : string) :
  occurs sep b = false ->
  last (split_on sep (d ++ String sep b)) EmptyString = b /\
  (2 <= length (split_on sep (d ++ String sep b)))%nat.
Proof.
  intros Hb. induction d as [|c d IH]; cbn [append split_on].
  - rewrite Ascii.eqb_refl, (split_on_free _ _ Hb). split; [reflexivity | simpl; lia].
  - destruct IH as [IHlast IHlen].
    destruct (Ascii.eqb c sep).
    + destruct (split_on sep (d ++ String sep b)) as [|w ws]; [simpl in IHlen; lia|].
      split; [exact IHlast | simpl; lia].
    + destruct (split_on sep (d ++ String sep b)) as [|w [|w' ws]];
        [simpl in IHlen; lia | simpl in IHlen; lia |].
      split; [exact IHlast | simpl; lia].
Qed.

(** Before the first separator comes the first piece. *)
Lemma hd_split_on (sep : ascii) (b e : string) :
  occurs sep b = false ->
  hd EmptyString (split_on sep (b ++ String sep e)) = b.
Proof.
  induction b as [|c b IH]; cbn [append split_on occurs]; intros Hb.
  - now rewrite Ascii.eqb_refl.
  - apply orb_false_iff in Hb. destruct Hb as [Hc Hb]. rewrite Hc.
    specialize (IH Hb).
    destruct (split_on sep (b ++ String sep e)) as [|w ws]; cbn [hd] in *;
      now rewrite IH.
Qed.

End FileNames.

(** X1.  The name under which the features of a video are saved holds
    neither ["/"] nor ["."]; and a video path without either is its own
    name. *)
Theorem video_name_has_no_separator (video : string) :
  occurs "/" (video_name video) = false /\
  occurs "." (video_name video) = false /\
  (occurs "/" video = false -> occurs "." video = false ->
   video_name video = video).
Proof.
  unfold video_name.
  set (file := last (split_on "/" video) EmptyString).
  assert (Hfile : occurs "/" file = false).
  { pose proof (split_on_pieces_free "/" video) as Hall.
    rewrite Forall_forall in Hall. apply Hall.
    unfold file. apply last_In, split_on_nonempty. }
  pose proof (split_on_nonempty "." file) as Hne.
  pose proof (split_on_pieces_free "." file) as Hdot.
  pose proof (join_split_on "." file) as Hjoin.
  destruct (split_on "." file) as [|w ws]; [contradiction|].
  cbn [hd]. inversion Hdot as [|? ? Hw _]; subst.
  split; [|split; [exact Hw|]].
  - destruct ws as [|w' ws]; cbn [join_with] in Hjoin.
    + now rewrite Hjoin.
    + rewrite <- Hjoin, occurs_app in Hfile.
      now apply orb_false_iff in Hfile.
  - intros Hslash Hnodot. unfold file in Hjoin.
    rewrite (split_on_free _ _ Hslash) in Hjoin. cbn [last] in Hjoin.
    destruct ws as [|w' ws]; cbn [join_with] in Hjoin; [exact Hjoin|].
    rewrite <- Hjoin, occurs_app in Hnodot. cbn [occurs] in Hnodot.
    rewrite Ascii.eqb_refl, orb_true_r in Hnodot. discriminate.
Qed.

Lemma video_name_has_no_separator_witness :
  video_name "clip7" = "clip7"%string.
Proof.
  apply (proj2 (proj2 (video_name_has_no_separator "clip7"))); reflexivity.
Defined.

(** X2.  The name of the feature file is what stands between the last
    ["/"] of the video path and the first ["."] after it: for the path
    [dir/base.ext] it is [base], whatever [dir] and [ext] are.  Videos
    with one base name in different directories, or differing after the
    first dot only, are saved to the same file. *)
Theorem video_name_of_path (dir base ext : string) :
  occurs "/" base = false -> occurs "." base = false ->
  occurs "/" ext = false ->
  video_name (dir ++ "/" ++ base ++ "." ++ ext) = base /\
  forall (output_path dir' ext' : string),
    occurs "/" ext' = false ->
    feature_file output_path (dir ++ "/" ++ base ++ "." ++ ext) =
    feature_file output_path (dir' ++ "/" ++ base ++ "." ++ ext').
Proof.
  intros Hslash Hdot Hext.
  assert (Hname : forall d e, occurs "/" e = false ->
            video_name (d ++ "/" ++ base ++ "." ++ e)%string = base).
  { intros d e He. unfold video_name.
    assert (Hfree : occurs "/" (base ++ "." ++ e)%string = false).
    { rewrite occurs_app, Hslash. cbn [append occurs orb].
      replace (Ascii.eqb "." "/") with false by reflexivity. exact He. }
    destruct (last_split_on "/" d _ Hfree) as [Hlast _].
    change (d ++ "/" ++ base ++ "." ++ e)%string
      with (d ++ String "/" (base ++ String "." e))%string.
    change (base ++ "." ++ e)%string with (base ++ String "." e)%string in Hlast.
    rewrite Hlast. now apply hd_split_on. }
  split; [now apply Hname|].
  intros output_path dir' ext' Hext'. unfold feature_file.
  now rewrite !Hname.
Qed.

Lemma video_name_of_path_witness :
  video_name "data/train/Abuse001_x264.mp4" = "Abuse001_x264"%string /\
  feature_file "output" "data/train/Abuse001_x264.mp4" =
  feature_file "output" "data/test/Abuse001_x264.v2.mp4".
Proof.
  destruct (video_name_of_path "data/train" "Abuse001_x264" "mp4")
    as [Hname Hsame]; try reflexivity.
  split; [exact Hname|].
  exact (Hsame "output"%string "data/test"%string "v2.mp4"%string eq_refl).
Defined.

(** ** The frames written to disk *)

Section FramePaths.
Local Open Scope string_scope.

Lemma append_assoc' (a b c : string) : (a ++ b) ++ c = a ++ b ++ c.
Proof. induction a as [|x a IH]; cbn [append]; [reflexivity | now rewrite IH]. Qed.

Lemma append_inv_head (p s t : string) : p ++ s = p ++ t -> s = t.
Proof.
  induction p as [|x p IH]; cbn [append]; [tauto|].
  intros H. injection H as H. now apply IH.
Qed.

Lemma list_ascii_of_string_app (s t : string) :
  list_ascii_of_string (s ++ t) =
  (list_ascii_of_string s ++ list_ascii_of_string t)%list.
Proof.
  induction s as [|x s IH]; cbn [append list_ascii_of_string app];
    [reflexivity | now rewrite IH].
Qed.

Lemma append_inv_tail (s t e : string) : s ++ e = t ++ e -> s = t.
Proof.
  intros H. apply (f_equal list_ascii_of_string) in H.
  rewrite !list_ascii_of_string_app in H. apply app_inv_tail in H.
  apply (f_equal string_of_list_ascii) in H.
  now rewrite !string_of_list_ascii_of_string in H.
Qed.

Lemma decimal_inj (i j : nat) :
  NilEmpty.string_of_uint (Nat.to_uint i) = NilEmpty.string_of_uint (Nat.to_uint j) ->
  i = j.
Proof.
  intros H. apply (f_equal NilEmpty.uint_of_string) in H.
  rewrite !NilEmpty.usu in H. injection H as H.
  apply (f_equal Nat.of_uint) in H. now rewrite !Unsigned.of_to in H.
Qed.

Lemma frame_file_inj (i j : nat) : frame_file i = frame_file j -> i = j.
Proof.
  unfold frame_file. intros H.
  apply append_inv_head, append_inv_tail in H. now apply decimal_inj.
Qed.

(** What [os.path.join] puts before the file name of a frame. *)
Lemma path_join_frame_file (dir : string) (i : nat) :
  path_join dir (frame_file i) =
  (match dir with
   | EmptyString => EmptyString
   | _ => if ends_with_slash dir then dir else dir ++ "/"
   end) ++ frame_file i.
Proof.
  unfold path_join, frame_file. cbn [append].
  destruct dir as [|c dir]; [reflexivity|].
  destruct (ends_with_slash (String c dir)); [reflexivity|].
  now rewrite append_assoc'.
Qed.

Lemma ends_with_slash_app (a b : string) :
  b <> EmptyString -> ends_with_slash (a ++ b) = ends_with_slash b.
Proof.
  intros Hb. induction a as [|x a IH]; cbn [append]; [reflexivity|].
  cbn [ends_with_slash]. rewrite IH.
  destruct (a ++ b) eqn:Hab; [|reflexivity].
  destruct a; cbn [append] in Hab; [contradiction | discriminate].
Qed.

Lemma NoDup_map_inj (A B : Type) (f : A -> B) (l : list A) :
  (forall x y, f x = f y -> x = y) -> NoDup l -> NoDup (map f l).
Proof.
  intros Hinj Hl. apply NoDup_map_NoDup_ForallPairs; [|exact Hl].
  intros x y _ _. apply Hinj.
Qed.

End FramePaths.

(** X3.  A video that reports no frame ends the process with the message
    "Video file not found".  Otherwise one write is handed to the pool per
    reported frame, the [i]-th image read going to the file [image<i>.jpg]
    of the output directory; the paths are pairwise distinct, so that no
    write of the pool replaces another, in whatever order they run.  In
    [generate] the directory is [output_path/temp/]. *)
Theorem frames_written_once (Img : Type) (frame_count : Z) (read : nat -> Img)
    (output_dir : string) :
  (frame_count = 0 ->
   extract_frames_from_video frame_count read output_dir
   = Exit "Video file not found") /\
  (frame_count <> 0 ->
   exists writes,
     extract_frames_from_video frame_count read output_dir = Done writes /\
     length writes = Z.to_nat frame_count /\
     NoDup (map fst writes) /\
     map snd writes = map read (seq 0 (Z.to_nat frame_count)) /\
     map fst writes =
       map (fun i => path_join output_dir (frame_file i))
           (seq 0 (Z.to_nat frame_count)) /\
     forall output_path, output_dir = temp_path_of output_path ->
       map fst writes =
       map (fun i => (output_path ++ "/temp/" ++ frame_file i)%string)
           (seq 0 (Z.to_nat frame_count))).
Proof.
  split.
  - intros ->. reflexivity.
  - intros Hnz. unfold extract_frames_from_video.
    replace (frame_count =? 0) with false by (symmetry; now apply Z.eqb_neq).
    eexists. split; [reflexivity|].
    set (n := Z.to_nat frame_count).
    rewrite combine_tables.
    assert (Hfst : map fst (map (fun i => (path_join output_dir (frame_file i), read i))
                                (seq 0 n))
                   = map (fun i => path_join output_dir (frame_file i)) (seq 0 n)).
    { rewrite map_map. reflexivity. }
    split; [now rewrite length_map, length_seq|].
    rewrite Hfst. split; [|split; [|split]].
    + apply NoDup_map_inj; [|apply seq_NoDup].
      intros i j H. rewrite !path_join_frame_file in H.
      apply append_inv_head in H. now apply frame_file_inj.
    + rewrite map_map. reflexivity.
    + reflexivity.
    + intros output_path ->. apply map_ext. intros i.
      rewrite path_join_frame_file. unfold temp_path_of.
      rewrite ends_with_slash_app by discriminate.
      change (ends_with_slash "/temp/") with true. cbv iota.
      destruct (output_path ++ "/temp/")%string eqn:Hp.
      * destruct output_path; discriminate Hp.
      * rewrite <- Hp. apply append_assoc'.
Qed.

Lemma frames_written_once_witness :
  exists writes,
    extract_frames_from_video 3 (fun i => i) "out/temp/" = Done writes /\
    map fst writes =
      ["out/temp/image0.jpg"; "out/temp/image1.jpg"; "out/temp/image2.jpg"]%string.
Proof.
  destruct (proj2 (frames_written_once nat 3 (fun i => i) "out/temp/")
                  ltac:(discriminate))
    as (writes & Hrun & _ & _ & _ & Hpaths & _).
  exists writes. split; [exact Hrun|]. rewrite Hpaths. reflexivity.
Defined.

(** ** More on the clip indexer *)

Lemma range_empty (a b : Z) : b <= a -> range a b = [].
Proof.
  intros H. unfold range. now replace (Z.to_nat (b - a)) with 0%nat by lia.
Qed.

Lemma range_NoDup (a b : Z) : NoDup (range a b).
Proof.
  unfold range. apply NoDup_map_inj; [|apply seq_NoDup].
  intros x y H. cbv beta in H. lia.
Qed.

(** X4.  With enough frames, a stride of 0 raises [ZeroDivisionError], and
    a negative stride is no error: the indexer returns an array without any
    window. *)
Theorem clip_indexer_stride_not_positive (F : Type) (frames : list F)
    (clip_length frequency : Z) :
  Z.of_nat (length frames) > clip_length ->
  (frequency = 0 ->
   from_frames_to_clips frames clip_length frequency = raise ZeroDivisionError) /\
  (frequency < 0 ->
   from_frames_to_clips frames clip_length frequency = ret []).
Proof.
  intros Hcnt. split.
  - intros ->. now apply from_frames_to_clips_zero_frequency.
  - intros Hneg. rewrite from_frames_to_clips_ok by (assumption || lia).
    rewrite range_empty; [reflexivity|].
    pose proof (Z.div_mod (Z.of_nat (length frames) - clip_length) frequency
                  ltac:(lia)) as Hdm.
    pose proof (Z.mod_neg_bound (Z.of_nat (length frames) - clip_length) frequency
                  Hneg) as Hmod.
    nia.
Qed.

Lemma clip_indexer_stride_not_positive_witness :
  from_frames_to_clips (repeat tt 20) 16 0 = raise ZeroDivisionError /\
  from_frames_to_clips (repeat tt 20) 16 (-2) = ret [].
Proof.
  destruct (clip_indexer_stride_not_positive unit (repeat tt 20) 16 0) as [H0 _];
    [simpl; lia|].
  destruct (clip_indexer_stride_not_positive unit (repeat tt 20) 16 (-2)) as [_ Hn];
    [simpl; lia|].
  split; [apply H0; reflexivity | apply Hn; lia].
Defined.

(** X5.  The last window ends within the last [frequency] frames: fewer
    than [frequency] frames at the end of the video are in no window, and
    with a stride of 1 the last window ends with the last frame. *)
Theorem clip_indexer_trailing_frames (F : Type) (frames : list F)
    (clip_length frequency : Z) :
  Z.of_nat (length frames) > clip_length -> frequency >= 1 ->
  let frame_count := Z.of_nat (length frames) in
  exists windows,
    from_frames_to_clips frames clip_length frequency = ret windows /\
    (1 <= length windows)%nat /\
    let last_end := (Z.of_nat (length windows) - 1) * frequency + clip_length in
    frame_count - frequency < last_end <= frame_count /\
    (frequency = 1 -> last_end = frame_count).
Proof.
  intros Hcnt Hfreq frame_count.
  eexists. split; [apply from_frames_to_clips_ok; [exact Hcnt | lia]|].
  fold frame_count. rewrite length_map, range_length.
  pose proof (Z.div_mod (frame_count - clip_length) frequency ltac:(lia)) as Hdm.
  pose proof (Z.mod_pos_bound (frame_count - clip_length) frequency ltac:(lia)) as Hmod.
  assert (Hq : 0 <= (frame_count - clip_length) / frequency)
    by (apply Z.div_pos; lia).
  split; [lia|]. cbv zeta. split; [nia|].
  intros ->. nia.
Qed.

Lemma clip_indexer_trailing_frames_witness :
  exists windows,
    from_frames_to_clips (repeat tt 30) 16 4 = ret windows /\
    (Z.of_nat (length windows) - 1) * 4 + 16 <= 30.
Proof.
  destruct (clip_indexer_trailing_frames unit (repeat tt 30) 16 4)
    as (windows & Hrun & _ & Hend & _); [simpl; lia | lia |].
  exists windows. split; [exact Hrun|]. simpl in Hend. lia.
Defined.

(** X6.  When the stride is at most [clip_length], every frame before the
    end of the last window is in some window.  With a larger stride frames
    are skipped: from two windows on, the frame of index [clip_length] is
    in none. *)
Theorem clip_indexer_coverage (F : Type) (frames : list F)
    (clip_length frequency : Z) :
  Z.of_nat (length frames) > clip_length -> frequency >= 1 ->
  exists windows,
    from_frames_to_clips frames clip_length frequency = ret windows /\
    let last_end := (Z.of_nat (length windows) - 1) * frequency + clip_length in
    (frequency <= clip_length ->
     forall j, 0 <= j < last_end -> exists w, In w windows /\ In j w) /\
    (clip_length < frequency -> 0 <= clip_length -> (2 <= length windows)%nat ->
     clip_length < last_end /\ forall w, In w windows -> ~ In clip_length w).
Proof.
  intros Hcnt Hfreq.
  eexists. split; [apply from_frames_to_clips_ok; [exact Hcnt | lia]|].
  set (frame_count := Z.of_nat (length frames)).
  set (n := (frame_count - clip_length) / frequency + 1).
  rewrite length_map, range_length.
  assert (Hn : 1 <= n) by (unfold n; assert (0 <= (frame_count - clip_length) / frequency)
                             by (apply Z.div_pos; lia); lia).
  replace (Z.of_nat (Z.to_nat (n - 0))) with n by lia.
  cbv zeta. split.
  - intros Hle j Hj.
    set (i := Z.min (j / frequency) (n - 1)).
    pose proof (Z.div_mod j frequency ltac:(lia)) as Hdm.
    pose proof (Z.mod_pos_bound j frequency ltac:(lia)) as Hmod.
    assert (Hq : 0 <= j / frequency) by (apply Z.div_pos; lia).
    assert (Hi : 0 <= i < n) by (unfold i; lia).
    exists (range (i * frequency) (i * frequency + clip_length)). split.
    + apply in_map_iff. exists i. split; [reflexivity|]. apply range_In. lia.
    + apply range_In. unfold i.
      destruct (Z.min_spec (j / frequency) (n - 1)) as [[Hlt ->]|[Hge ->]]; nia.
  - intros Hgap Hcl Htwo. split; [nia|].
    intros w Hw Hin. apply in_map_iff in Hw. destruct Hw as (i & <- & Hi).
    apply range_In in Hi. apply range_In in Hin.
    destruct (Z.eq_dec i 0) as [->|Hi0]; [lia|].
    assert (1 * frequency <= i * frequency) by (apply Z.mul_le_mono_nonneg_r; lia).
    lia.
Qed.

Lemma clip_indexer_coverage_witness :
  exists windows,
    from_frames_to_clips (repeat tt 30) 16 4 = ret windows /\
    exists w, In w windows /\ In 27 w.
Proof.
  destruct (clip_indexer_coverage unit (repeat tt 30) 16 4)
    as (windows & Hrun & Hcover & _); [simpl; lia | lia |].
  exists windows. split; [exact Hrun|].
  apply Hcover; [lia|].
  apply (f_equal (fun r => match r with
                           | inr ws => Z.of_nat (length ws)
                           | inl _ => 0
                           end)) in Hrun.
  simpl in Hrun. rewrite <- Hrun. lia.
Defined.

(** X7.  With [clip_length >= 1] no window is returned twice: the windows
    are pairwise distinct. *)
Theorem clip_indexer_windows_distinct (F : Type) (frames : list F)
    (clip_length frequency : Z) :
  1 <= clip_length ->
  Z.of_nat (length frames) > clip_length -> frequency >= 1 ->
  exists windows,
    from_frames_to_clips frames clip_length frequency = ret windows /\
    NoDup windows.
Proof.
  intros Hcl Hcnt Hfreq.
  eexists. split; [apply from_frames_to_clips_ok; [exact Hcnt | lia]|].
  apply NoDup_map_inj; [|apply range_NoDup].
  intros x y H. cbv beta in H.
  apply (f_equal (fun w => nth 0 w 0)) in H.
  rewrite !range_nth in H by lia. nia.
Qed.

Lemma clip_indexer_windows_distinct_witness :
  exists windows,
    from_frames_to_clips (repeat tt 20) 16 1 = ret windows /\ NoDup windows.
Proof.
  apply (clip_indexer_windows_distinct unit (repeat tt 20) 16 1);
    [lia | simpl; lia | lia].
Defined.

(** ** More on the batch partitioner *)

(** What the partitioner returns for [n >= 1] windows and a capacity
    [c >= 1], when it returns: [b = ceil(n / c)] consecutive runs of
    [n // b] windows, between 1 and [c] of them. *)
Lemma split_returns_groups (W : Type) (windows : list W) (c : Z)
    (batches : list (list W)) :
  (1 <= length windows)%nat -> 1 <= c ->
  split_clip_indices_into_batches windows c = ret batches ->
  let b := Z.to_nat (ceil_div (Z.of_nat (length windows)) c) in
  let m := (length windows / b)%nat in
  length batches = b /\
  concat batches = windows /\
  Forall (fun g => length g = m) batches /\
  (1 <= m)%nat /\ Z.of_nat m <= c.
Proof.
  intros Hn Hc Hrun b m.
  pose proof (ceil_div_pos (Z.of_nat (length windows)) c ltac:(lia) Hc) as Hb.
  pose proof (ceil_div_bounds (Z.of_nat (length windows)) c ltac:(lia) Hc)
    as Hbounds.
  destruct (split_returns W windows c batches Hn Hc Hrun) as [Hr Hbatches].
  fold b in Hr, Hbatches. fold m in Hbatches.
  assert (Hbpos : (0 < b)%nat) by (unfold b; lia).
  pose proof (Nat.div_mod_eq (length windows) b) as Hdm. fold m in Hdm.
  destruct (sections_repeat W m b windows ltac:(lia)) as (Hlen & Hconcat & Hall).
  rewrite <- Hbatches in Hlen, Hconcat, Hall.
  split; [exact Hlen|]. split; [exact Hconcat|]. split; [exact Hall|].
  assert (Hm : (1 <= m)%nat) by (apply Nat.div_str_pos; unfold b; lia).
  split; [exact Hm|].
  replace (ceil_div (Z.of_nat (length windows)) c) with (Z.of_nat b) in Hbounds
    by (unfold b; lia).
  nia.
Qed.

Lemma indexer_returns_windows (F : Type) (frames : list F)
    (clip_length frequency : Z) :
  Z.of_nat (length frames) > clip_length -> frequency >= 1 ->
  exists windows,
    from_frames_to_clips frames clip_length frequency = ret windows /\
    (1 <= length windows)%nat /\
    forall w, In w windows ->
      exists i, 0 <= i /\
        w = range (i * frequency) (i * frequency + clip_length) /\
        i * frequency + clip_length <= Z.of_nat (length frames).
Proof.
  intros Hcnt Hfreq.
  eexists. split; [apply from_frames_to_clips_ok; [exact Hcnt | lia]|].
  set (d := Z.of_nat (length frames) - clip_length).
  pose proof (Z.div_mod d frequency ltac:(lia)) as Hdm.
  pose proof (Z.mod_pos_bound d frequency ltac:(lia)) as Hmod.
  assert (Hq : 0 <= d / frequency) by (apply Z.div_pos; lia).
  split; [rewrite length_map, range_length; lia|].
  intros w Hw. apply in_map_iff in Hw. destruct Hw as (i & <- & Hi).
  apply range_In in Hi. exists i. split; [lia|]. split; [reflexivity|].
  unfold d in *. nia.
Qed.

(** X8.  For [n >= 1] windows and a capacity [c >= 1], every batch the
    partitioner returns holds at least one window and at most [c]: the
    capacity bounds what is loaded at once. *)
Theorem partition_respects_capacity (W : Type) (windows : list W) (c : Z)
    (batches : list (list W)) :
  (1 <= length windows)%nat -> 1 <= c ->
  split_clip_indices_into_batches windows c = ret batches ->
  Forall (fun g => 1 <= Z.of_nat (length g) <= c) batches.
Proof.
  intros Hn Hc Hrun.
  destruct (split_returns_groups W windows c batches Hn Hc Hrun)
    as (_ & _ & Hall & Hm & Hmc).
  eapply Forall_impl; [|exact Hall]. intros g Hg. cbv beta in Hg. lia.
Qed.

Lemma partition_respects_capacity_witness :
  Forall (fun g => 1 <= Z.of_nat (length g) <= 8)
         [range 0 6; range 6 12; range 12 18].
Proof.
  apply (partition_respects_capacity Z (range 0 18) 8);
    [simpl; lia | lia | reflexivity].
Defined.



(** X10.  A negative capacity is rejected with [ValueError] for every
    array of windows: the group count it gives is not positive. *)
Theorem partition_negative_capacity (W : Type) (windows : list W) (c : Z) :
  c < 0 -> split_clip_indices_into_batches windows c = raise ValueError.
Proof.
  intros Hc. unfold split_clip_indices_into_batches, array_split.
  replace (c =? 0) with false by (symmetry; apply Z.eqb_neq; lia).
  assert (Hle : ceil_div (Z.of_nat (length windows)) c <= 0).
  { unfold ceil_div.
    pose proof (Z.div_mod (- Z.of_nat (length windows)) c ltac:(lia)) as Hdm.
    pose proof (Z.mod_neg_bound (- Z.of_nat (length windows)) c Hc) as Hmod.
    nia. }
  now replace (ceil_div (Z.of_nat (length windows)) c <=? 0) with true
    by (symmetry; apply Z.leb_le; exact Hle).
Qed.

Lemma partition_negative_capacity_witness :
  split_clip_indices_into_batches (range 0 5) (-8) = raise ValueError.
Proof.
  apply (partition_negative_capacity Z (range 0 5) (-8)). lia.
Defined.





(** ** The batch loader *)

Section LoaderFacts.
Variable Frame : Type.
Variable read_and_crop : string -> string -> Frame.

Lemma getitem_in_range (A : Type) (l : list A) (i : Z) (d : A) :
  - Z.of_nat (length l) <= i < Z.of_nat (length l) ->
  getitem l i = ret (nth (Z.to_nat (i mod Z.of_nat (length l))) l d).
Proof.
  intros Hi. unfold getitem.
  set (len := Z.of_nat (length l)) in *.
  assert (Hmod : (if i <? 0 then i + len else i) = i mod len).
  { destruct (Z.ltb_spec i 0) as [Hneg|Hpos].
    - apply (Z.mod_unique i len (-1)); lia.
    - symmetry. apply Z.mod_small. lia. }
  rewrite Hmod.
  pose proof (Z.mod_pos_bound i len ltac:(lia)) as Hb.
  replace (i mod len <? 0) with false by (symmetry; apply Z.ltb_ge; lia).
  rewrite (nth_error_nth' l d) by (unfold len in *; lia).
  reflexivity.
Qed.

Lemma getitem_out_of_range (A : Type) (l : list A) (i : Z) :
  i < - Z.of_nat (length l) \/ Z.of_nat (length l) <= i ->
  getitem l i = raise IndexError.
Proof.
  intros Hi. unfold getitem.
  destruct (Z.ltb_spec i 0) as [Hneg|Hpos].
  - now replace (i + Z.of_nat (length l) <? 0) with true
      by (symmetry; apply Z.ltb_lt; lia).
  - replace (i <? 0) with false by (symmetry; apply Z.ltb_ge; lia).
    replace (nth_error l (Z.to_nat i)) with (@None A); [reflexivity|].
    symmetry. apply nth_error_None. lia.
Qed.

Lemma mapM_raise (X Y : Type) (f : X -> result Y) (e : exn) (l : list X) :
  (forall x, In x l -> f x = raise e \/ exists y, f x = ret y) ->
  Exists (fun x => f x = raise e) l -> mapM f l = raise e.
Proof.
  induction l as [|x l IH]; intros Hall Hex; [inversion Hex|].
  cbn [mapM]. destruct (Hall x (or_introl eq_refl)) as [Hx|(y & Hx)]; rewrite Hx;
    [reflexivity|].
  cbn [bind ret]. rewrite IH; [reflexivity | |].
  - intros z Hz. apply Hall. now right.
  - inversion Hex as [? ? Hhd|? ? Htl]; subst; [|exact Htl].
    rewrite Hx in Hhd. discriminate Hhd.
Qed.

Lemma mapM_raise_or_ret (X Y : Type) (f : X -> result Y) (e : exn) (l : list X) :
  (forall x, In x l -> f x = raise e \/ exists y, f x = ret y) ->
  mapM f l = raise e \/ exists ys, mapM f l = ret ys.
Proof.
  induction l as [|x l IH]; intros Hall; [right; now exists []|].
  cbn [mapM]. destruct (Hall x (or_introl eq_refl)) as [Hx|(y & Hx)]; rewrite Hx;
    [now left|].
  cbn [bind ret].
  destruct IH as [Hl|(ys & Hl)]; [intros z Hz; apply Hall; now right| |];
    rewrite Hl; [now left | right; now exists (y :: ys)].
Qed.

Lemma read_cell_cases (frames_dir : string) (rgb_files : list string) (j : Z) :
  (file <- getitem rgb_files j ;; ret (read_and_crop frames_dir file))
  = raise IndexError \/
  exists y,
    (file <- getitem rgb_files j ;; ret (read_and_crop frames_dir file)) = ret y.
Proof.
  destruct (Z_lt_ge_dec j (- Z.of_nat (length rgb_files))) as [Hlow|Hlow];
    [left; rewrite getitem_out_of_range by lia; reflexivity|].
  destruct (Z_lt_ge_dec j (Z.of_nat (length rgb_files))) as [Hhigh|Hhigh];
    [|left; rewrite getitem_out_of_range by lia; reflexivity].
  right. rewrite (getitem_in_range _ _ _ EmptyString) by lia.
  eexists. reflexivity.
Qed.

Lemma load_rgb_batch_in_range (frames_dir : string) (rgb_files : list string)
    (frame_indices : list (list Z)) :
  Forall (Forall (fun j => - Z.of_nat (length rgb_files) <= j
                           < Z.of_nat (length rgb_files))) frame_indices ->
  load_rgb_batch Frame read_and_crop frames_dir rgb_files frame_indices =
  ret (map (map (fun j =>
                   read_and_crop frames_dir
                     (nth (Z.to_nat (j mod Z.of_nat (length rgb_files)))
                          rgb_files EmptyString)))
           frame_indices).
Proof.
  intros Hall. unfold load_rgb_batch.
  apply mapM_ret. intros clip Hclip.
  rewrite Forall_forall in Hall. specialize (Hall clip Hclip).
  apply mapM_ret. intros j Hj.
  rewrite Forall_forall in Hall. specialize (Hall j Hj).
  now rewrite (getitem_in_range _ _ _ EmptyString) by exact Hall.
Qed.

Lemma load_rgb_batch_out_of_range (frames_dir : string) (rgb_files : list string)
    (frame_indices : list (list Z)) :
  Exists (Exists (fun j => j < - Z.of_nat (length rgb_files)
                           \/ Z.of_nat (length rgb_files) <= j)) frame_indices ->
  load_rgb_batch Frame read_and_crop frames_dir rgb_files frame_indices =
  raise IndexError.
Proof.
  intros Hex. unfold load_rgb_batch.
  apply mapM_raise.
  - intros clip _. apply mapM_raise_or_ret. intros j _.
    apply (read_cell_cases frames_dir rgb_files j).
  - apply Exists_exists in Hex. destruct Hex as (clip & Hclip & Hbad).
    apply Exists_exists. exists clip. split; [exact Hclip|].
    apply mapM_raise.
    + intros j _. apply (read_cell_cases frames_dir rgb_files j).
    + apply Exists_exists in Hbad. destruct Hbad as (j & Hj & Hout).
      apply Exists_exists. exists j. split; [exact Hj|].
      now rewrite getitem_out_of_range.
Qed.

End LoaderFacts.

(** X13.  The loader reads one frame per cell of the index array: when
    every index [j] lies in [-len, len), [len] being the count of the frame
    files, the batch has the shape of the index array and its cell holds the
    frame of file [j mod len] (a negative index counts from the last file).
    An index outside that range makes the whole load fail with
    [IndexError]. *)
Theorem loader_index_bounds (Frame : Type) (read_and_crop : string -> string -> Frame)
    (frames_dir : string) (rgb_files : list string) (frame_indices : list (list Z)) :
  let len := Z.of_nat (length rgb_files) in
  (Forall (Forall (fun j => - len <= j < len)) frame_indices ->
   load_rgb_batch Frame read_and_crop frames_dir rgb_files frame_indices =
   ret (map (map (fun j =>
                    read_and_crop frames_dir
                      (nth (Z.to_nat (j mod len)) rgb_files EmptyString)))
            frame_indices)) /\
  (Exists (Exists (fun j => j < - len \/ len <= j)) frame_indices ->
   load_rgb_batch Frame read_and_crop frames_dir rgb_files frame_indices =
   raise IndexError).
Proof.
  intros len. split.
  - apply load_rgb_batch_in_range.
  - apply load_rgb_batch_out_of_range.
Qed.

Lemma loader_index_bounds_witness :
  load_rgb_batch string (fun d f => (d ++ f)%string) "t/" ["a"; "b"; "c"]%string
    [[0; 1]; [-1; 2]]
  = ret [["t/a"; "t/b"]; ["t/c"; "t/c"]]%string /\
  load_rgb_batch string (fun d f => (d ++ f)%string) "t/" ["a"; "b"; "c"]%string
    [[0; 1]; [1; 3]]
  = raise IndexError.
Proof.
  destruct (loader_index_bounds string (fun d f => (d ++ f)%string) "t/"
              ["a"; "b"; "c"]%string [[0; 1]; [-1; 2]]) as [Hok _].
  destruct (loader_index_bounds string (fun d f => (d ++ f)%string) "t/"
              ["a"; "b"; "c"]%string [[0; 1]; [1; 3]]) as [_ Hbad].
  split.
  - rewrite Hok; [reflexivity|].
    repeat constructor; simpl; lia.
  - apply Hbad. right. left. right. left. simpl. lia.
Defined.

(** X14.  Every batch the partitioner returns for the windows of the
    indexer loads without error: the indices of the windows are indices of
    frame files.  The cell for index [j] holds the frame of file [j], so a
    clip of the batch holds the frames of its window in their order. *)
Theorem pipeline_batches_load (Frame : Type)
    (read_and_crop : string -> string -> Frame) (frames_dir : string)
    (rgb_files : list string) (clip_length frequency batch_size : Z) :
  Z.of_nat (length rgb_files) > clip_length -> frequency >= 1 ->
  1 <= batch_size ->
  exists windows,
    from_frames_to_clips rgb_files clip_length frequency = ret windows /\
    forall batches,
      split_clip_indices_into_batches windows batch_size = ret batches ->
      Forall (fun g =>
                load_rgb_batch Frame read_and_crop frames_dir rgb_files g =
                ret (map (map (fun j =>
                                 read_and_crop frames_dir
                                   (nth (Z.to_nat j) rgb_files EmptyString)))
                         g))
             batches.
Proof.
  intros Hcnt Hfreq Hc.
  destruct (indexer_returns_windows _ rgb_files clip_length frequency Hcnt Hfreq)
    as (windows & Hrun & Hlen & Hwin).
  exists windows. split; [exact Hrun|]. intros batches Hsplit.
  destruct (split_returns_groups _ windows batch_size batches Hlen Hc Hsplit)
    as (_ & Hconcat & _).
  apply Forall_forall. intros g Hg.
  assert (Hrange : Forall (Forall (fun j => 0 <= j < Z.of_nat (length rgb_files))) g).
  { apply Forall_forall. intros w Hw.
    assert (Hin : In w windows).
    { rewrite <- Hconcat. apply in_concat. exists g. split; assumption. }
    destruct (Hwin w Hin) as (i & Hi & -> & Hend).
    apply Forall_forall. intros j Hj. apply range_In in Hj. nia. }
  rewrite load_rgb_batch_in_range.
  - unfold ret. f_equal. apply map_ext_in. intros w Hw.
    rewrite Forall_forall in Hrange. specialize (Hrange w Hw).
    apply map_ext_in. intros j Hj.
    rewrite Forall_forall in Hrange. specialize (Hrange j Hj).
    now rewrite Z.mod_small by lia.
  - eapply Forall_impl; [|exact Hrange].
    intros w Hw. eapply Forall_impl; [|exact Hw]. intros j Hj. cbv beta in *. lia.
Qed.

Lemma pipeline_batches_load_witness :
  Forall (fun g =>
            load_rgb_batch string (fun d f => (d ++ f)%string) "t/"
              ["f0"; "f1"; "f2"; "f3"; "f4"]%string g =
            ret (map (map (fun j =>
                             ("t/" ++ nth (Z.to_nat j)
                                ["f0"; "f1"; "f2"; "f3"; "f4"]%string
                                EmptyString)%string))
                     g))
         [[[0; 1]; [1; 2]]; [[2; 3]; [3; 4]]].
Proof.
  destruct (pipeline_batches_load string (fun d f => (d ++ f)%string) "t/"
              ["f0"; "f1"; "f2"; "f3"; "f4"]%string 2 1 2)
    as (windows & Hrun & Hall); [simpl; lia | lia | lia |].
  apply Hall. vm_compute in Hrun. injection Hrun as <-. reflexivity.
Defined.

(** ** More on the normalisation *)

Section NormalisationFacts.
Local Open Scope R_scope.

Lemma flatten_i3d_unit_axes (v : list (list R)) :
  flatten_i3d (map (map (fun x => [[[x]]])) v) = flatten_c3d v.
Proof.
  unfold flatten_i3d, flatten_c3d. rewrite map_map. f_equal.
  rewrite <- (map_id v) at 2. apply map_ext. intros row.
  rewrite map_map. cbn [concat app]. apply concat_singletons.
Qed.

End NormalisationFacts.

(** X16.  The two paths normalise alike: the I3D division on features with
    unit axes gives the C3D division of the same numbers, with unit axes. *)
Theorem normalize_i3d_is_normalize_c3d (features : list (list R)) :
  normalize_i3d (map (map (fun x => [[[x]]])) features) =
  map (map (fun x => [[[x]]])) (normalize_c3d features).
Proof.
  rewrite normalize_i3d_exact. rewrite flatten_i3d_unit_axes.
  rewrite normalize_c3d_exact. rewrite !map_map. apply map_ext. intros row.
  rewrite !map_map. reflexivity.
Qed.

(** ** More on the reassembly *)

Lemma position_in_batches (n_batches m k w : nat) :
  (1 <= n_batches -> k <= m -> w < (n_batches - 1) * m + k ->
   w / m < n_batches /\ w mod m < m /\ (w / m < n_batches - 1 \/ w mod m < k))%nat.
Proof.
  intros Hb Hk Hw.
  assert (Hm : m <> 0%nat) by (intros ->; lia).
  pose proof (Nat.div_mod_eq w m) as Hdm.
  pose proof (Nat.mod_upper_bound w m Hm) as Hmod.
  assert (Hq : (w / m < n_batches)%nat) by (apply Nat.Div0.div_lt_upper_bound; nia).
  split; [exact Hq|]. split; [exact Hmod|].
  destruct (Nat.lt_ge_cases (w / m) (n_batches - 1)) as [Hlt|Hge]; [now left|].
  right. assert ((w / m = n_batches - 1)%nat) by lia. nia.
Qed.

Section ReassemblyEdges.
Local Open Scope nat_scope.
Context {T : Type}.
Variables (full_features : list (list (list (list T))))
          (n_batches n_crops m : nat).
Hypothesis Hbatches : 1 <= n_batches.
Hypothesis Hcrops : 1 <= n_crops.
Hypothesis Hrows : forall b i, b < n_batches -> i < n_crops ->
  length (nth i (nth b full_features []) []) = m.

(** The accumulator, read window by window. *)
Lemma own_layout (k : Z) :
  (0 <= k <= Z.of_nat m)%Z ->
  forall w i, w < (n_batches - 1) * m + Z.to_nat k -> i < n_crops ->
    nth_error (nth i (nth (w / m) full_features []) []) (w mod m)
    = Some (nth (w mod m) (nth i (nth (w / m) full_features []) []) []).
Proof.
  intros Hk w i Hw Hi.
  destruct (position_in_batches n_batches m (Z.to_nat k) w Hbatches ltac:(lia) Hw)
    as (Hq & Hr & _).
  apply nth_error_nth'. now rewrite Hrows.
Qed.

Lemma slice_to_clamped (k : Z) (rows : list (list T)) :
  length rows = m ->
  slice_to k rows =
  slice_to (if (k <? 0)%Z then Z.max 0 (Z.of_nat m + k) else Z.min k (Z.of_nat m))
           rows.
Proof.
  intros Hlen. unfold slice_to.
  destruct (Z.ltb_spec k 0) as [Hneg|Hpos].
  - replace (Z.max 0 (Z.of_nat m + k) <? 0)%Z with false
      by (symmetry; apply Z.ltb_ge; lia).
    f_equal. lia.
  - replace (Z.min k (Z.of_nat m) <? 0)%Z with false
      by (symmetry; apply Z.ltb_ge; lia).
    destruct (Z_le_gt_dec k (Z.of_nat m)) as [Hle|Hgt].
    + now rewrite Z.min_l by exact Hle.
    + rewrite Z.min_r by lia. rewrite !firstn_all2 by lia. reflexivity.
Qed.

Lemma collect_clamped (k : Z) :
  collect full_features n_batches n_crops k =
  collect full_features n_batches n_crops
    (if (k <? 0)%Z then Z.max 0 (Z.of_nat m + k) else Z.min k (Z.of_nat m)).
Proof.
  rewrite !collect_table by assumption. unfold ret. f_equal.
  apply map_ext_in. intros i Hi. apply in_seq in Hi. f_equal.
  apply map_ext_in. intros b Hb. apply in_seq in Hb.
  unfold kept_rows. cbv zeta.
  destruct (Z.of_nat b =? Z.of_nat n_batches - 1)%Z; [|reflexivity].
  apply slice_to_clamped. apply Hrows; lia.
Qed.

End ReassemblyEdges.

(** X20.  Any [k] is taken by the cut of the last batch, as a slice bound:
    a [k] above the count [m] of the rows of a batch keeps all the rows of
    the last batch, a negative [k] drops [-k] rows from its end (all of
    them from [-m] down), and no error is raised.  The array has
    [(n_batches - 1) * m] rows plus the rows kept of the last batch. *)
Theorem reassembly_valid_count_as_slice (T : Type)
    (full_features : list (list (list (list T))))
    (n_batches n_crops m : nat) (k : Z) :
  (1 <= n_batches)%nat -> (1 <= n_crops)%nat ->
  (forall b i, (b < n_batches)%nat -> (i < n_crops)%nat ->
     length (nth i (nth b full_features []) []) = m) ->
  let kept := if k <? 0 then Z.max 0 (Z.of_nat m + k) else Z.min k (Z.of_nat m) in
  reassemble_c3d full_features n_batches n_crops k =
  reassemble_c3d full_features n_batches n_crops kept /\
  exists video,
    reassemble_c3d full_features n_batches n_crops k = ret video /\
    length video = ((n_batches - 1) * m + Z.to_nat kept)%nat /\
    Forall (fun clip => length clip = n_crops) video.
Proof.
  intros Hb Hc Hrows kept.
  assert (Hsame : reassemble_c3d full_features n_batches n_crops k =
                  reassemble_c3d full_features n_batches n_crops kept).
  { unfold reassemble_c3d.
    now rewrite (collect_clamped full_features n_batches n_crops m Hb Hc Hrows k). }
  split; [exact Hsame|].
  assert (Hkept : 0 <= kept <= Z.of_nat m)
    by (unfold kept; destruct (Z.ltb_spec k 0); lia).
  eexists. split.
  - rewrite Hsame.
    apply (reassemble_c3d_in_order
             (fun i w => nth (w mod m) (nth i (nth (w / m) full_features []) []) [])
             full_features n_batches n_crops m kept Hb Hc Hkept Hrows).
    now apply own_layout.
  - split; [now rewrite length_map, length_seq|].
    apply Forall_forall. intros clip Hclip. apply in_map_iff in Hclip.
    destruct Hclip as (w & <- & _). now rewrite length_map, length_seq.
Qed.

Lemma reassembly_valid_count_as_slice_witness :
  reassemble_c3d [[[[1]; [2]; [3]]]; [[[4]; [5]; [6]]]] 2 1 (-1)
  = reassemble_c3d [[[[1]; [2]; [3]]]; [[[4]; [5]; [6]]]] 2 1 2 /\
  reassemble_c3d [[[[1]; [2]; [3]]]; [[[4]; [5]; [6]]]] 2 1 7
  = reassemble_c3d [[[[1]; [2]; [3]]]; [[[4]; [5]; [6]]]] 2 1 3.
Proof.
  split.
  - refine (proj1 (reassembly_valid_count_as_slice Z
                     [[[[1]; [2]; [3]]]; [[[4]; [5]; [6]]]] 2 1 3 (-1) _ _ _));
      [lia | lia |].
    intros b i Hb Hi.
    do 2 (destruct b as [|b]; [destruct i as [|i]; [reflexivity | lia]|]). lia.
  - refine (proj1 (reassembly_valid_count_as_slice Z
                     [[[[1]; [2]; [3]]]; [[[4]; [5]; [6]]]] 2 1 3 7 _ _ _));
      [lia | lia |].
    intros b i Hb Hi.
    do 2 (destruct b as [|b]; [destruct i as [|i]; [reflexivity | lia]|]). lia.
Defined.

(** X21.  What stands in the rows of the last batch from [valid_count] on
    never reaches the array: two accumulators that agree on all rows of the
    batches before the last and on the first [valid_count] rows of the last
    give the same array. *)
Theorem reassembly_ignores_padding (T : Type)
    (full_features full_features' : list (list (list (list T))))
    (n_batches n_crops m : nat) (valid_count : Z) :
  (1 <= n_batches)%nat -> (1 <= n_crops)%nat ->
  0 <= valid_count <= Z.of_nat m ->
  (forall b i, (b < n_batches)%nat -> (i < n_crops)%nat ->
     length (nth i (nth b full_features []) []) = m /\
     length (nth i (nth b full_features' []) []) = m) ->
  (forall b i r, (b < n_batches)%nat -> (i < n_crops)%nat -> (r < m)%nat ->
     (b < n_batches - 1)%nat \/ (r < Z.to_nat valid_count)%nat ->
     nth_error (nth i (nth b full_features []) []) r =
     nth_error (nth i (nth b full_features' []) []) r) ->
  reassemble_c3d full_features n_batches n_crops valid_count =
  reassemble_c3d full_features' n_batches n_crops valid_count.
Proof.
  intros Hb Hc Hk Hrows Hagree.
  assert (Hrows1 : forall b i, (b < n_batches)%nat -> (i < n_crops)%nat ->
            length (nth i (nth b full_features []) []) = m)
    by (intros b i Hbb Hi; now destruct (Hrows b i Hbb Hi)).
  assert (Hrows2 : forall b i, (b < n_batches)%nat -> (i < n_crops)%nat ->
            length (nth i (nth b full_features' []) []) = m)
    by (intros b i Hbb Hi; now destruct (Hrows b i Hbb Hi)).
  set (emb := fun i w => nth (w mod m) (nth i (nth (w / m) full_features []) []) []).
  rewrite (reassemble_c3d_in_order emb full_features n_batches n_crops m valid_count
             Hb Hc Hk Hrows1)
    by (now apply own_layout).
  symmetry.
  apply (reassemble_c3d_in_order emb full_features' n_batches n_crops m valid_count
           Hb Hc Hk Hrows2).
  intros w i Hw Hi.
  destruct (position_in_batches n_batches m (Z.to_nat valid_count) w Hb
              ltac:(lia) Hw) as (Hq & Hr & Hside).
  rewrite <- (Hagree (w / m)%nat i (w mod m)%nat Hq Hi Hr Hside).
  eapply (own_layout full_features n_batches n_crops m); eassumption.
Qed.

Lemma reassembly_ignores_padding_witness :
  reassemble_c3d [[[[1]; [2]; [3]]]; [[[4]; [5]; [0]]]] 2 1 2
  = reassemble_c3d [[[[1]; [2]; [3]]]; [[[4]; [5]; [99]]]] 2 1 2.
Proof.
  refine (reassembly_ignores_padding Z
            [[[[1]; [2]; [3]]]; [[[4]; [5]; [0]]]]
            [[[[1]; [2]; [3]]]; [[[4]; [5]; [99]]]] 2 1 3 2 _ _ _ _ _);
    [lia | lia | lia | |].
  - intros b i Hb Hi.
    do 2 (destruct b as [|b]; [destruct i as [|i]; [split; reflexivity | lia]|]). lia.
  - intros b i r Hb Hi Hr Hside.
    destruct i as [|i]; [|lia].
    destruct b as [|[|b]]; [| |lia].
    + do 3 (destruct r as [|r]; [reflexivity|]). lia.
    + destruct Hside as [Hside|Hside]; [lia|].
      do 2 (destruct r as [|r]; [reflexivity|]). simpl in Hside. lia.
Defined.

(** ** The unpacking of line 24 *)

(** X22.  The statement [frame_indices, k = split_clip_indices_into_batches(...)]
    iterates over the batches.  It raises [ValueError] unless the partition
    has exactly two batches and these have one size, that is unless
    [ceil(n / batch_size) = 2] and [n] is even: with another batch count the
    unpacking fails, with two batches of different sizes the partitioner
    does.  With two batches of one size, [k] is bound to the second batch,
    an array, which is no integer. *)
Theorem pair_unpacking_needs_two_batches (Frame Device : Type)
    (windows : list (list Z)) (batch_size : Z) :
  (1 <= length windows)%nat -> 1 <= batch_size ->
  let batch_count := ceil_div (Z.of_nat (length windows)) batch_size in
  let unpacked :=
    r <- call (@def_split_clip_indices_into_batches Frame Device)
           [VArr2 windows; VInt batch_size] ;;
    unpack2 r in
  (batch_count <> 2 \/ (length windows mod 2 <> 0)%nat ->
   unpacked = raise ValueError) /\
  (batch_count = 2 -> (length windows mod 2 = 0)%nat ->
   exists first second,
     unpacked = ret (VArr2 first, VArr2 second) /\
     (first ++ second)%list = windows /\
     length first = length second /\
     as_int Frame Device (VArr2 second) = raise TypeError).
Proof.
  intros Hn Hc batch_count unpacked.
  pose proof (ceil_div_pos (Z.of_nat (length windows)) batch_size ltac:(lia) Hc) as Hb.
  fold batch_count in Hb.
  set (b := Z.to_nat batch_count).
  assert (Hbpos : (0 < b)%nat) by lia.
  assert (Hrun : unpacked =
                 (a <- split_clip_indices_into_batches windows batch_size ;;
                  unpack2 (@VArr3 Frame Device a))).
  { unfold unpacked, call. cbn [length params body def_split_clip_indices_into_batches
                                Nat.eqb].
    destruct (split_clip_indices_into_batches windows batch_size); reflexivity. }
  rewrite Hrun, split_cases by assumption. fold batch_count. fold b.
  destruct (Nat.eqb_spec (length windows mod b) 0) as [Hr|Hr].
  - rewrite section_sizes_divides by exact Hr.
    pose proof (Nat.div_mod_eq (length windows) b) as Hdm.
    destruct (sections_repeat _ (length windows / b) b windows ltac:(lia))
      as (Hlen & Hconcat & Hall).
    cbv beta iota delta [bind ret].
    destruct (sections (repeat (length windows / b)%nat b) windows)
      as [|first [|second [|third rest]]]; cbn [length] in Hlen.
    + lia.
    + split; [reflexivity | intros H2; lia].
    + assert (Hb2 : b = 2%nat) by lia. rewrite Hb2 in Hr. split.
      * intros [Hne|Hodd]; [lia | contradiction].
      * intros _ _. exists first, second. split; [reflexivity|].
        split; [cbn [concat] in Hconcat; now rewrite app_nil_r in Hconcat|].
        split; [|reflexivity].
        inversion Hall as [|? ? H1 Hall']. inversion Hall' as [|? ? H2 _].
        congruence.
    + split; [reflexivity | intros H2; lia].
  - split; [reflexivity|]. intros H2 Hev. exfalso. apply Hr.
    replace b with 2%nat by lia. exact Hev.
Qed.

Lemma pair_unpacking_needs_two_batches_witness :
  (r <- call (@def_split_clip_indices_into_batches unit unit)
          [VArr2 (map (fun s => range s (s + 16)) (range 0 5)); VInt 8] ;;
   unpack2 r) = raise ValueError.
Proof.
  refine (proj1 (pair_unpacking_needs_two_batches unit unit
                   (map (fun s => range s (s + 16)) (range 0 5)) 8 _ _) _).
  - simpl. lia.
  - lia.
  - left. vm_compute. discriminate.
Defined.
